(** * VisionTalk: the inference gateway and the conversation controller

  A shallow embedding of [src/services/gemini.ts] and of the event
  handlers of [src/App.tsx], with the properties of the conversational
  state machine proved over it.

  - [Js]      the fragment of JavaScript's string and truthiness behaviour
              the handlers rely on;
  - [Genai]   the request and response shapes of the generative-AI client,
              restricted to the fields the source reads or writes;
  - [Async]   asynchronous handlers as resumptions: state updates, awaited
              remote calls, exceptions, [try]/[catch]/[finally];
  - [Gemini]  [describeImage] and [generateSpeech];
  - [App]     the component state, its handlers and the event loop. *)

From Stdlib Require Import List String Ascii Bool Arith Lia.
Import ListNotations.

Set Implicit Arguments.
Open Scope string_scope.

(* ------------------------------------------------------------------ *)
(** ** JavaScript strings and truthiness *)

Module Js.

(** A string is falsy exactly when it is empty. *)
Definition truthy (s : string) : bool :=
  match s with
  | EmptyString => false
  | String _ _ => true
  end.

(** [null] and [undefined] are falsy; a present string is judged by
    [truthy]. *)
Definition truthy_opt (o : option string) : bool :=
  match o with
  | Some s => truthy s
  | None => false
  end.

(** [a || b] where [a : string | undefined] and [b : string]. *)
Definition or_else (a : option string) (b : string) : string :=
  match a with
  | Some s => if truthy s then s else b
  | None => b
  end.

(** [a || undefined] where [a : string | null]. *)
Definition or_undefined (a : option string) : option string :=
  match a with
  | Some s => if truthy s then Some s else None
  | None => None
  end.

(** [s.split(c)] for a one-character separator. *)
Fixpoint split (sep : ascii) (s : string) : list string :=
  match s with
  | EmptyString => [EmptyString]
  | String c rest =>
      if Ascii.eqb c sep then EmptyString :: split sep rest
      else match split sep rest with
           | field :: fields => String c field :: fields
           | [] => [String c EmptyString]
           end
  end.

(** [xs[i]]: [undefined] out of range. *)
Definition index {A : Type} (xs : list A) (i : nat) : option A :=
  nth_error xs i.

(** [xs.join(sep)]. *)
Fixpoint join (sep : string) (xs : list string) : string :=
  match xs with
  | [] => EmptyString
  | [x] => x
  | x :: rest => x ++ sep ++ join sep rest
  end.

(** [c.toUpperCase()] on the ASCII range. *)
Definition upper_ascii (c : ascii) : ascii :=
  let n := nat_of_ascii c in
  if Nat.leb 97 n && Nat.leb n 122 then ascii_of_nat (n - 32) else c.

Fixpoint toUpperCase (s : string) : string :=
  match s with
  | EmptyString => EmptyString
  | String c rest => String (upper_ascii c) (toUpperCase rest)
  end.

Definition newline : string := String (ascii_of_nat 10) EmptyString.

Definition comma : ascii := ","%char.

(** Membership of a character in a string. *)
Fixpoint contains (c : ascii) (s : string) : bool :=
  match s with
  | EmptyString => false
  | String d rest => Ascii.eqb d c || contains c rest
  end.

End Js.

(* ------------------------------------------------------------------ *)
(** ** Request and response shapes of the client library *)

Module Genai.

Inductive Role : Type := user | model.

Definition role_name (r : Role) : string :=
  match r with
  | user => "user"
  | model => "model"
  end.

Definition Role_eqb (a b : Role) : bool :=
  match a, b with
  | user, user | model, model => true
  | _, _ => false
  end.

Inductive Modality : Type := AUDIO | TEXT | IMAGE.

Record Blob : Type := mkBlob {
  mimeType : option string;
  data : option string
}.

Record Part : Type := mkPart {
  part_text : option string;
  inlineData : option Blob
}.

Record Content : Type := mkContent {
  content_role : option Role;
  parts : option (list Part)
}.

Record PrebuiltVoiceConfig : Type := { voiceName : string }.
Record VoiceConfig : Type := { prebuiltVoiceConfig : PrebuiltVoiceConfig }.
Record SpeechConfig : Type := { voiceConfig : VoiceConfig }.

Record GenerateContentConfig : Type := mkConfig {
  systemInstruction : option string;
  responseModalities : option (list Modality);
  speechConfig : option SpeechConfig
}.

Record GenerateContentParameters : Type := mkParams {
  model_id : string;
  contents : list Content;
  config : GenerateContentConfig
}.

Record Candidate : Type := mkCandidate {
  content : option Content
}.

(** [response_text] stands for the client's [text] accessor; the source
    only reads it, so it is kept as a field of its own. *)
Record GenerateContentResponse : Type := mkResponse {
  candidates : option (list Candidate);
  response_text : option string
}.

Definition text_part (s : string) : Part :=
  {| part_text := Some s; inlineData := None |}.

Definition inline_part (mime : string) (d : option string) : Part :=
  {| part_text := None;
     inlineData := Some {| mimeType := Some mime; data := d |} |}.

End Genai.

(* ------------------------------------------------------------------ *)
(** ** Asynchronous handlers as resumptions *)

Module Async.

Import Genai.

Definition Error : Type := string.

(** What the remote endpoint answers to one awaited call. *)
Inductive Outcome : Type :=
| Resolved (r : GenerateContentResponse)
| Rejected (e : Error).

Section Proc.

(** The component state the handler updates. *)
Variable St : Type.

Inductive Proc (A : Type) : Type :=
| Ret (a : A)
| Throw (e : Error)
| Update (f : St -> St) (k : Proc A)
| GenerateContent (req : GenerateContentParameters)
    (ok : GenerateContentResponse -> Proc A) (err : Error -> Proc A)
| ConsoleError (e : Error) (k : Proc A)
| PlayAudio (src : string) (onended : St -> St) (k : Proc A).

Arguments Ret {A} a.
Arguments Throw {A} e.

Fixpoint bind {A B : Type} (p : Proc A) (f : A -> Proc B) : Proc B :=
  match p with
  | Ret a => f a
  | Throw e => Throw e
  | Update g k => Update g (bind k f)
  | GenerateContent req ok err =>
      GenerateContent req (fun r => bind (ok r) f) (fun e => bind (err e) f)
  | ConsoleError e k => ConsoleError e (bind k f)
  | PlayAudio src cb k => PlayAudio src cb (bind k f)
  end.

(** [await ai.models.generateContent(req)]: a rejection is thrown at the
    point of the [await]. *)
Definition await_generateContent (req : GenerateContentParameters)
  : Proc GenerateContentResponse :=
  GenerateContent req (fun r => Ret r) (fun e => Throw e).

(** [try { p } catch (e) { h e }]. *)
Fixpoint try_catch {A : Type} (p : Proc A) (h : Error -> Proc A) : Proc A :=
  match p with
  | Ret a => Ret a
  | Throw e => h e
  | Update g k => Update g (try_catch k h)
  | GenerateContent req ok err =>
      GenerateContent req (fun r => try_catch (ok r) h)
                          (fun e => try_catch (err e) h)
  | ConsoleError e k => ConsoleError e (try_catch k h)
  | PlayAudio src cb k => PlayAudio src cb (try_catch k h)
  end.

(** [try { p } finally { fin }]: [fin] runs on both completions and the
    completion of [p] is kept. *)
Fixpoint try_finally {A : Type} (p : Proc A) (fin : Proc unit) : Proc A :=
  match p with
  | Ret a => bind fin (fun _ => Ret a)
  | Throw e => bind fin (fun _ => Throw e)
  | Update g k => Update g (try_finally k fin)
  | GenerateContent req ok err =>
      GenerateContent req (fun r => try_finally (ok r) fin)
                          (fun e => try_finally (err e) fin)
  | ConsoleError e k => ConsoleError e (try_finally k fin)
  | PlayAudio src cb k => PlayAudio src cb (try_finally k fin)
  end.

(** Everything observable about a run: the current component state, the
    states it went through, the requests sent, what was logged and which
    audio elements were started (with their [onended] callbacks). *)
Record World : Type := mkWorld {
  app : St;
  visited : list St;
  requests : list GenerateContentParameters;
  logged : list Error;
  playing : list (string * (St -> St))
}.

Definition init_world (s : St) : World :=
  {| app := s; visited := []; requests := []; logged := []; playing := [] |}.

Definition set_app (w : World) (f : St -> St) : World :=
  {| app := f (app w); visited := (visited w ++ [f (app w)])%list;
     requests := requests w; logged := logged w; playing := playing w |}.

Definition send (w : World) (req : GenerateContentParameters) : World :=
  {| app := app w; visited := visited w;
     requests := (requests w ++ [req])%list; logged := logged w;
     playing := playing w |}.

Definition log (w : World) (e : Error) : World :=
  {| app := app w; visited := visited w; requests := requests w;
     logged := (logged w ++ [e])%list; playing := playing w |}.

Definition play (w : World) (src : string) (cb : St -> St) : World :=
  {| app := app w; visited := visited w; requests := requests w;
     logged := logged w; playing := (playing w ++ [(src, cb)])%list |}.

(** How far a handler got. *)
Inductive Susp (A : Type) : Type :=
| Done (a : A)
| Uncaught (e : Error)
| Awaiting (ok : GenerateContentResponse -> Proc A) (err : Error -> Proc A).

Arguments Done {A} a.
Arguments Uncaught {A} e.

(** Run a handler against the answers of the endpoint, in order; with no
    answer left it stays suspended at its [await], the request sent. *)
Fixpoint exec {A : Type} (p : Proc A) (env : list Outcome) (w : World)
  : World * Susp A :=
  match p with
  | Ret a => (w, Done a)
  | Throw e => (w, Uncaught e)
  | Update f k => exec k env (set_app w f)
  | GenerateContent req ok err =>
      match env with
      | [] => (send w req, Awaiting ok err)
      | Resolved r :: env' => exec (ok r) env' (send w req)
      | Rejected e :: env' => exec (err e) env' (send w req)
      end
  | ConsoleError e k => exec k env (log w e)
  | PlayAudio src cb k => exec k env (play w src cb)
  end.

End Proc.

Arguments Ret {St A} a.
Arguments Throw {St A} e.
Arguments Done {St A} a.
Arguments Uncaught {St A} e.
Arguments await_generateContent {St} req.

End Async.

(* ------------------------------------------------------------------ *)
(** ** services/gemini.ts *)

Module Gemini.

Import Genai Async.

Definition VISION_MODEL : string := "gemini-3.1-pro-preview".
Definition TTS_MODEL : string := "gemini-2.5-flash-preview-tts".

Record Message : Type := mkMessage {
  role : Role;
  text : string;
  image : option string;
  audio : option string
}.

(** The [imagePart] of [describeImage]: [null] for a falsy image string,
    otherwise an inline blob whose data is the second comma-separated field
    of the string. *)
Definition imagePart (base64Image : string) : option Part :=
  if Js.truthy base64Image
  then Some (inline_part "image/jpeg"
               (Js.index (Js.split Js.comma base64Image) 1))
  else None.

Definition historyParts (history : list Message) : list Content :=
  map (fun m => {| content_role := Some (role m);
                   parts := Some [text_part (text m)] |}) history.

Definition systemInstruction_for (language : string) : string :=
  "You are a helpful AI assistant. Always respond in " ++ language
  ++ ". If an image is provided, analyze it thoroughly.".

(** [parts], after the conditional push of the image and the push of the
    prompt. *)
Definition turn_parts (base64Image prompt : string) : list Part :=
  let parts := [] in
  let parts := match imagePart base64Image with
               | Some p => (parts ++ [p])%list
               | None => parts
               end in
  (parts ++ [text_part prompt])%list.

Definition describeImage_request (base64Image prompt : string)
    (history : list Message) (language : option string)
  : GenerateContentParameters :=
  let language := match language with Some l => l | None => "English" end in
  {| model_id := VISION_MODEL;
     contents := (historyParts history
                  ++ [ {| content_role := None;
                          parts := Some (turn_parts base64Image prompt) |} ])%list;
     config := {| systemInstruction := Some (systemInstruction_for language);
                  responseModalities := None;
                  speechConfig := None |} |}.

Definition generateSpeech_request (t : string) : GenerateContentParameters :=
  {| model_id := TTS_MODEL;
     contents := [ {| content_role := None;
                      parts := Some [text_part ("Say clearly: " ++ t)] |} ];
     config := {| systemInstruction := None;
                  responseModalities := Some [AUDIO];
                  speechConfig :=
                    Some {| voiceConfig :=
                      {| prebuiltVoiceConfig := {| voiceName := "Kore" |} |} |}
               |} |}.

(** [response.candidates?.[0]?.content?.parts?.[0]?.inlineData?.data] *)
Definition first_part_inline_data (response : GenerateContentResponse)
  : option string :=
  match candidates response with
  | None => None
  | Some cs =>
      match Js.index cs 0 with
      | None => None
      | Some c =>
          match content c with
          | None => None
          | Some ct =>
              match parts ct with
              | None => None
              | Some ps =>
                  match Js.index ps 0 with
                  | None => None
                  | Some p =>
                      match inlineData p with
                      | None => None
                      | Some b => data b
                      end
                  end
              end
          end
      end
  end.

Section Gateway.

Variable St : Type.

Definition describeImage (base64Image prompt : string)
    (history : list Message) (language : option string)
  : Proc St (option string) :=
  bind (await_generateContent
          (describeImage_request base64Image prompt history language))
       (fun response => Ret (response_text response)).

Definition generateSpeech (t : string) : Proc St (option string) :=
  bind (await_generateContent (generateSpeech_request t))
       (fun response => Ret (first_part_inline_data response)).

End Gateway.

(** Which of the two operations a request belongs to. *)
Definition is_speech_request (req : GenerateContentParameters) : bool :=
  String.eqb (model_id req) TTS_MODEL.

Definition is_analyze_request (req : GenerateContentParameters) : bool :=
  String.eqb (model_id req) VISION_MODEL.

End Gemini.

(* ------------------------------------------------------------------ *)
(** ** App.tsx: component state and handlers *)

Module App.

Import Genai Async.

Inductive Status : Type := idle | analyzing | speaking.

Definition Status_eqb (a b : Status) : bool :=
  match a, b with
  | idle, idle | analyzing, analyzing | speaking, speaking => true
  | _, _ => false
  end.

Record State : Type := mkState {
  messages : list Gemini.Message;
  input : string;
  image : option string;
  isRecording : bool;
  isLoading : bool;
  isTtsEnabled : bool;
  selectedLanguage : string;
  status : Status
}.

(** [useState] initial values. *)
Definition initial : State :=
  {| messages := []; input := ""; image := None; isRecording := false;
     isLoading := false; isTtsEnabled := true; selectedLanguage := "English";
     status := idle |}.

Definition setMessages (f : list Gemini.Message -> list Gemini.Message)
    (s : State) : State :=
  {| messages := f (messages s); input := input s; image := image s;
     isRecording := isRecording s; isLoading := isLoading s;
     isTtsEnabled := isTtsEnabled s; selectedLanguage := selectedLanguage s;
     status := status s |}.

Definition setInput (v : string) (s : State) : State :=
  {| messages := messages s; input := v; image := image s;
     isRecording := isRecording s; isLoading := isLoading s;
     isTtsEnabled := isTtsEnabled s; selectedLanguage := selectedLanguage s;
     status := status s |}.

Definition setImage (v : option string) (s : State) : State :=
  {| messages := messages s; input := input s; image := v;
     isRecording := isRecording s; isLoading := isLoading s;
     isTtsEnabled := isTtsEnabled s; selectedLanguage := selectedLanguage s;
     status := status s |}.

Definition setIsRecording (v : bool) (s : State) : State :=
  {| messages := messages s; input := input s; image := image s;
     isRecording := v; isLoading := isLoading s;
     isTtsEnabled := isTtsEnabled s; selectedLanguage := selectedLanguage s;
     status := status s |}.

Definition setIsLoading (v : bool) (s : State) : State :=
  {| messages := messages s; input := input s; image := image s;
     isRecording := isRecording s; isLoading := v;
     isTtsEnabled := isTtsEnabled s; selectedLanguage := selectedLanguage s;
     status := status s |}.

Definition setIsTtsEnabled (v : bool) (s : State) : State :=
  {| messages := messages s; input := input s; image := image s;
     isRecording := isRecording s; isLoading := isLoading s;
     isTtsEnabled := v; selectedLanguage := selectedLanguage s;
     status := status s |}.

Definition setSelectedLanguage (v : string) (s : State) : State :=
  {| messages := messages s; input := input s; image := image s;
     isRecording := isRecording s; isLoading := isLoading s;
     isTtsEnabled := isTtsEnabled s; selectedLanguage := v;
     status := status s |}.

Definition setStatus (v : Status) (s : State) : State :=
  {| messages := messages s; input := input s; image := image s;
     isRecording := isRecording s; isLoading := isLoading s;
     isTtsEnabled := isTtsEnabled s; selectedLanguage := selectedLanguage s;
     status := v |}.

Definition Handler : Type := Proc State unit.

Notation "x <- p ;; k" := (bind p (fun x => k))
  (at level 61, p at next level, right associativity).
Notation "'upd' f ;; k" := (Update f k)
  (at level 61, f at next level, right associativity).

Definition error_text : string :=
  "Sorry, I encountered an error processing your request.".

Definition fallback_text : string := "I couldn't analyze the image.".

Definition default_user_text : string := "Analyze this image".

Definition default_prompt : string := "What do you see in this image?".

(** [downloadConversation]: the text handed to the [Blob]. *)
Definition downloadConversation (s : State) : string :=
  Js.join (Js.newline ++ Js.newline)
    (map (fun m => Js.toUpperCase (role_name (Gemini.role m)) ++ ": "
                   ++ Gemini.text m)
         (messages s)).

(** [handleSend], with [c] the render whose values the handler closes over;
    the functional updates act on the state current when they run. *)
Definition handleSend (c : State) (textOverride : option string) : Handler :=
  let text := Js.or_else textOverride (input c) in
  if negb (Js.truthy text) && negb (Js.truthy_opt (image c)) then Ret tt
  else
    let userMsg :=
      {| Gemini.role := user;
         Gemini.text := Js.or_else (Some text) default_user_text;
         Gemini.image := Js.or_undefined (image c);
         Gemini.audio := None |} in
    upd setMessages (fun prev => (prev ++ [userMsg])%list) ;;
    upd setInput "" ;;
    upd setIsLoading true ;;
    upd setStatus analyzing ;;
    try_finally
      (try_catch
         (described <- Gemini.describeImage State
                         (Js.or_else (image c) "")
                         (Js.or_else (Some text) default_prompt)
                         (messages c)
                         (Some (selectedLanguage c)) ;;
          let responseText := Js.or_else described fallback_text in
          let modelMsg :=
            {| Gemini.role := model; Gemini.text := responseText;
               Gemini.image := None; Gemini.audio := None |} in
          upd setMessages (fun prev => (prev ++ [modelMsg])%list) ;;
          if isTtsEnabled c then
            upd setStatus speaking ;;
            audioData <- Gemini.generateSpeech State responseText ;;
            if Js.truthy_opt audioData then
              PlayAudio
                ("data:audio/wav;base64," ++ Js.or_else audioData "")
                (setStatus idle)
                (Ret tt)
            else
              upd setStatus idle ;; Ret tt
          else
            upd setStatus idle ;; Ret tt)
         (fun error =>
            ConsoleError error
              (upd setMessages
                     (fun prev =>
                        (prev ++ [ {| Gemini.role := model;
                                      Gemini.text := error_text;
                                      Gemini.image := None;
                                      Gemini.audio := None |} ])%list) ;;
               upd setStatus idle ;; Ret tt)))
      (upd setIsLoading false ;; Ret tt).

Definition clearChat (s : State) : State :=
  setStatus idle (setImage None (setMessages (fun _ => []) s)).

(** The [disabled] attribute of the send button. *)
Definition send_disabled (s : State) : bool :=
  isLoading s || (negb (Js.truthy (input s)) && negb (Js.truthy_opt (image s))).

(** *** The event loop

    One component instance: its observable world and the handlers suspended
    at an [await], oldest first. *)

Record Pending : Type := mkPending {
  on_resolve : GenerateContentResponse -> Handler;
  on_reject : Error -> Handler
}.

Record Machine : Type := mkMachine {
  world : World State;
  inflight : list Pending
}.

Definition boot : Machine :=
  {| world := init_world initial; inflight := [] |}.

Inductive Event : Type :=
| ChangeInput (v : string)          (* typing in the text field *)
| KeyDown (key : string)            (* a key pressed in the text field *)
| ClickSend
| ClickToggleTts
| ClickClear
| ClickRemoveImage
| ImageLoaded (dataUrl : string)    (* the file reader finished *)
| SelectLanguage (v : string)
| RecorderStarted
| RecorderStopped
| Settle (i : nat) (o : Outcome)    (* the endpoint answers request [i] *)
| AudioEnded (i : nat).

Fixpoint remove_nth {A : Type} (i : nat) (xs : list A) : list A :=
  match xs, i with
  | [], _ => []
  | _ :: rest, O => rest
  | x :: rest, S j => x :: remove_nth j rest
  end.

(** Run a handler until it returns or suspends. *)
Definition invoke (m : Machine) (h : Handler) : Machine :=
  match exec h [] (world m) with
  | (w, Awaiting ok err) =>
      {| world := w;
         inflight := (inflight m
                      ++ [ {| on_resolve := ok; on_reject := err |} ])%list |}
  | (w, _) => {| world := w; inflight := inflight m |}
  end.

Definition set_state (m : Machine) (f : State -> State) : Machine :=
  {| world := set_app (world m) f; inflight := inflight m |}.

Definition step (m : Machine) (ev : Event) : Machine :=
  let s := app (world m) in
  match ev with
  | ChangeInput v => set_state m (setInput v)
  | KeyDown key =>
      if String.eqb key "Enter" then invoke m (handleSend s None) else m
  | ClickSend =>
      if send_disabled s then m else invoke m (handleSend s None)
  | ClickToggleTts => set_state m (setIsTtsEnabled (negb (isTtsEnabled s)))
  | ClickClear => set_state m clearChat
  | ClickRemoveImage =>
      if Js.truthy_opt (image s) && Nat.eqb (List.length (messages s)) 0
      then set_state m (setImage None) else m
  | ImageLoaded dataUrl => set_state m (setImage (Some dataUrl))
  | SelectLanguage v => set_state m (setSelectedLanguage v)
  | RecorderStarted => set_state m (setIsRecording true)
  | RecorderStopped => set_state m (setIsRecording false)
  | Settle i o =>
      match nth_error (inflight m) i with
      | None => m
      | Some p =>
          invoke {| world := world m; inflight := remove_nth i (inflight m) |}
                 (match o with
                  | Resolved r => on_resolve p r
                  | Rejected e => on_reject p e
                  end)
      end
  | AudioEnded i =>
      match nth_error (playing (world m)) i with
      | None => m
      | Some (_, onended) =>
          {| world :=
               {| app := onended s;
                  visited := (visited (world m) ++ [onended s])%list;
                  requests := requests (world m);
                  logged := logged (world m);
                  playing := remove_nth i (playing (world m)) |};
             inflight := inflight m |}
      end
  end.

Definition run (m : Machine) (evs : list Event) : Machine :=
  fold_left step evs m.

(** One turn on its own: [handleSend] closed over [c], started in [c], run
    against the endpoint's answers. *)
Definition turn (c : State) (textOverride : option string)
    (env : list Outcome) : World State * Susp State unit :=
  exec (handleSend c textOverride) env (init_world c).

End App.

(* ------------------------------------------------------------------ *)
(** ** The specification's wording, for comparison with the code *)

Module Stated.

Import Genai.

(** The parts of all candidates of a response, in order. *)
Definition all_parts (response : GenerateContentResponse) : list Part :=
  flat_map (fun c => match content c with
                     | Some ct => match parts ct with
                                  | Some ps => ps
                                  | None => []
                                  end
                     | None => []
                     end)
           (match candidates response with Some cs => cs | None => [] end).

(** Every inline payload carried anywhere in a response, in order. *)
Definition inline_payloads (response : GenerateContentResponse)
  : list string :=
  flat_map (fun p => match inlineData p with
                     | Some b => match data b with
                                 | Some d => [d]
                                 | None => []
                                 end
                     | None => []
                     end)
           (all_parts response).

(** "The first inline audio payload found in the response, or nothing if
    absent." *)
Definition first_inline_payload (response : GenerateContentResponse)
  : option string :=
  hd_error (inline_payloads response).

(** "Stripped of its data-URI prefix": what follows the first comma; nothing
    when there is no comma to end a prefix. *)
Fixpoint strip_data_uri_prefix (s : string) : option string :=
  match s with
  | EmptyString => None
  | String c rest =>
      if Ascii.eqb c Js.comma then Some rest else strip_data_uri_prefix rest
  end.

(** The text up to the first occurrence of [sep], all of it if none. *)
Fixpoint until (sep : ascii) (s : string) : string :=
  match s with
  | EmptyString => EmptyString
  | String c rest =>
      if Ascii.eqb c sep then EmptyString else String c (until sep rest)
  end.

(** "Exactly one user Message and, on success, exactly one model Message, in
    that order", as a relation between the conversation before and after. *)
Definition appends_user_then_model (before after : list Gemini.Message)
  : Prop :=
  exists u m,
    Gemini.role u = user /\ Gemini.role m = model
    /\ after = (before ++ [u; m])%list.

(** Whether a speech-synthesis call, if the turn makes one, is answered with
    a rejection: [answers] are what the endpoint says after the analysis. *)
Definition speech_rejected (answers : list Async.Outcome) : bool :=
  match answers with
  | Async.Rejected _ :: _ => true
  | _ => false
  end.

(** Whether the status moves into [speaking] along a trace of states that
    starts from status [prev]. *)
Fixpoint enters_speaking (prev : App.Status) (trace : list App.State) : bool :=
  match trace with
  | [] => false
  | s :: rest =>
      (negb (App.Status_eqb prev App.speaking)
       && App.Status_eqb (App.status s) App.speaking)
      || enters_speaking (App.status s) rest
  end.

(** A message without its image and audio. *)
Definition strip_media (m : Gemini.Message) : Gemini.Message :=
  {| Gemini.role := Gemini.role m; Gemini.text := Gemini.text m;
     Gemini.image := None; Gemini.audio := None |}.

(** A "ROLE: text" line. *)
Definition transcript_line (m : Gemini.Message) : string :=
  (match Gemini.role m with user => "USER" | model => "MODEL" end)
  ++ ": " ++ Gemini.text m.

(** Whether every message of a list is a model message. *)
Definition all_model (ms : list Gemini.Message) : bool :=
  forallb (fun m => Role_eqb (Gemini.role m) model) ms.

End Stated.

(* ------------------------------------------------------------------ *)
(** ** Concrete inputs used in the examples *)

Module Samples.

Import Genai Async.

(** A speech response whose audio sits in the second part of its only
    candidate, after a text part. *)
Definition audio_in_second_part : GenerateContentResponse :=
  {| candidates :=
       Some [ {| content :=
                   Some {| content_role := Some model;
                           parts := Some [ text_part "caption";
                                           inline_part "audio/wav"
                                             (Some "UklGRg==") ] |} |} ];
     response_text := None |}.

(** A speech response whose audio sits in the first part. *)
Definition audio_in_first_part : GenerateContentResponse :=
  {| candidates :=
       Some [ {| content :=
                   Some {| content_role := Some model;
                           parts := Some [ inline_part "audio/wav"
                                             (Some "UklGRg==") ] |} |} ];
     response_text := None |}.

(** A text answer. *)
Definition answer (t : string) : GenerateContentResponse :=
  {| candidates := None; response_text := Some t |}.

(** A data URI whose payload is not base64 and contains a comma. *)
Definition plain_data_uri : string := "data:text/plain,a,b".

(** What a file reader yields for a JPEG. *)
Definition jpeg_data_uri : string := "data:image/jpeg;base64,/9j/4AAQ".

Definition typed (t : string) : App.State := App.setInput t App.initial.

Definition attached (img : string) : App.State :=
  App.setImage (Some img) App.initial.

(** The text field holds "a" and Enter was pressed, then "b" was typed while
    the first request was still unanswered. *)
Definition typing_while_loading : App.Machine :=
  App.run App.boot
    [App.ChangeInput "a"; App.KeyDown "Enter"; App.ChangeInput "b"].

(** The same with speech output switched off. *)
Definition muted (t : string) : App.State :=
  App.setIsTtsEnabled false (typed t).

(** The conversation of the export example. *)
Definition greeting : list Gemini.Message :=
  [ {| Gemini.role := user; Gemini.text := "hi";
       Gemini.image := None; Gemini.audio := None |};
    {| Gemini.role := model; Gemini.text := "hello";
       Gemini.image := None; Gemini.audio := None |} ].

End Samples.

(* ------------------------------------------------------------------ *)
(** ** Sessions: kinds of events and what stays in flight *)

Module Session.

Import Genai Async App.

(** The two ways a user submits: Enter in the text field, and a click on the
    send button. *)
Definition is_enter (ev : Event) : bool :=
  match ev with
  | KeyDown key => String.eqb key "Enter"
  | _ => false
  end.

Definition is_settle (ev : Event) : bool :=
  match ev with
  | Settle _ _ => true
  | _ => false
  end.

Definition is_clear (ev : Event) : bool :=
  match ev with
  | ClickClear => true
  | _ => false
  end.

(** Events whose handlers only set a piece of component state. *)
Definition passive (ev : Event) : bool :=
  match ev with
  | ChangeInput _ | ClickToggleTts | ClickClear | ClickRemoveImage
  | ImageLoaded _ | SelectLanguage _ | RecorderStarted | RecorderStopped =>
      true
  | KeyDown key => negb (String.eqb key "Enter")
  | ClickSend | Settle _ _ | AudioEnded _ => false
  end.

(** The continuation with which a suspended handler goes on. *)
Definition resume (p : Pending) (o : Outcome) : Handler :=
  match o with
  | Resolved r => on_resolve p r
  | Rejected e => on_reject p e
  end.

(** Where a handler suspends, if it does. *)
Definition pending_of (h : Handler) : option Pending :=
  match snd (exec h [] (init_world initial)) with
  | Awaiting ok err => Some {| on_resolve := ok; on_reject := err |}
  | _ => None
  end.

(** A turn waiting for its analysis: [handleSend], closed over some render,
    suspended at [describeImage]. *)
Definition awaits_analysis (p : Pending) : Prop :=
  exists c textOverride, pending_of (handleSend c textOverride) = Some p.

(** A turn waiting for its speech: the former, resumed with an answer and
    suspended again at [generateSpeech]. *)
Definition awaits_speech (p : Pending) : Prop :=
  exists p1 r, awaits_analysis p1 /\ pending_of (on_resolve p1 r) = Some p.

(** What holds of every state of a session: whatever is in flight is a turn
    at one of its two awaits, and every audio element that is playing sets
    the status to idle when it ends. *)
Definition well_formed (m : Machine) : Prop :=
  Forall (fun p => awaits_analysis p \/ awaits_speech p) (inflight m)
  /\ Forall (fun a => snd a = setStatus idle) (playing (world m)).

(** The message a turn shows for an answer. *)
Definition reply (r : GenerateContentResponse) : Gemini.Message :=
  {| Gemini.role := model;
     Gemini.text := Js.or_else (response_text r) fallback_text;
     Gemini.image := None; Gemini.audio := None |}.

(** The analysis request of a submission made in state [s]. *)
Definition analysis_request (s : State) : GenerateContentParameters :=
  Gemini.describeImage_request (Js.or_else (image s) "")
    (Js.or_else (Some (input s)) default_prompt) (messages s)
    (Some (selectedLanguage s)).

(** Pressing Enter [n] times in a row. *)
Definition presses (n : nat) : list Event := repeat (KeyDown "Enter") n.

(** *** Scenarios *)

(** "a" is typed and sent with the button; "b" is typed and the button is
    clicked again before any answer. *)
Definition two_clicks : list Event :=
  [ChangeInput "a"; ClickSend; ChangeInput "b"; ClickSend].

(** A turn is started from the keyboard. *)
Definition one_submission : list Event :=
  [ChangeInput "a"; KeyDown "Enter"].

(** What a user may try while that turn hangs. *)
Definition impatience : list Event :=
  [ClickClear; ChangeInput "b"; ClickSend; ClickToggleTts].

(** A turn is answered with text and then with audio. *)
Definition spoken_turn : list Event :=
  [ChangeInput "a"; KeyDown "Enter";
   Settle 0 (Resolved (Samples.answer "a cat"));
   Settle 0 (Resolved Samples.audio_in_first_part)].

(** The switches are flipped and the chat cleared while a turn waits. *)
Definition fiddling : list Event :=
  [ClickToggleTts; SelectLanguage "French"; ClickClear].

Definition ready : Machine := run boot [ChangeInput "hi"].

Definition with_attachment : Machine :=
  run boot [ImageLoaded Samples.jpeg_data_uri].

(** The user Message a submission made in state [s] appends. *)
Definition submitted (s : State) : Gemini.Message :=
  {| Gemini.role := user;
     Gemini.text := Js.or_else (Some (input s)) default_user_text;
     Gemini.image := Js.or_undefined (image s);
     Gemini.audio := None |}.

(** "hi" is submitted with speech output enabled, and speech output is
    switched off while the analysis is awaited. *)
Definition switched_off_while_waiting : Machine :=
  run boot [ChangeInput "hi"; KeyDown "Enter"; ClickToggleTts].

(** Speech output is switched off and "hi" is typed. *)
Definition ready_muted : Machine :=
  run boot [ClickToggleTts; ChangeInput "hi"].

(** Speech output is switched on again, among other things, while a turn
    waits. *)
Definition switching_on : list Event :=
  [ClickToggleTts; ChangeInput "more"; SelectLanguage "French"].

End Session.

(* ------------------------------------------------------------------ *)
(** ** Properties of the inference gateway *)

Module GeminiFacts.

Import Genai Async Gemini Stated.

Lemma split_head_until (sep : ascii) (s : string) :
  exists fields, Js.split sep s = until sep s :: fields.
Proof.
  induction s as [|c rest [fields IH]]; simpl.
  - now exists [].
  - destruct (Ascii.eqb c sep).
    + now exists (Js.split sep rest).
    + rewrite IH. now exists fields.
Qed.

(** The second field of a split is the text after the first separator, cut
    at the next one. *)
Lemma split_second_field (s : string) :
  Js.index (Js.split Js.comma s) 1
  = option_map (until Js.comma) (strip_data_uri_prefix s).
Proof.
  induction s as [|c rest IH]; simpl.
  - reflexivity.
  - destruct (Ascii.eqb c Js.comma) eqn:E.
    + destruct (split_head_until Js.comma rest) as [fields ->].
      reflexivity.
    + destruct (split_head_until Js.comma rest) as [fields Hs].
      rewrite Hs in *. exact IH.
Qed.

Lemma until_no_sep (sep : ascii) (s : string) :
  Js.contains sep s = false -> until sep s = s.
Proof.
  induction s as [|c rest IH]; simpl; intros H.
  - reflexivity.
  - apply orb_false_iff in H as [Hc Hr].
    rewrite Hc. now rewrite IH.
Qed.

Lemma strip_after_header (hdr payload : string) :
  Js.contains Js.comma hdr = false ->
  strip_data_uri_prefix (hdr ++ String Js.comma payload) = Some payload.
Proof.
  induction hdr as [|c rest IH]; simpl; intros H.
  - reflexivity.
  - apply orb_false_iff in H as [Hc Hr].
    rewrite Hc. now apply IH.
Qed.

(** Whatever the endpoint answers, an operation of the gateway sends exactly
    its one request. *)
Lemma gateway_sends_once (St A : Type) (req : GenerateContentParameters)
    (f : GenerateContentResponse -> A) (env : list Outcome) (w : World St) :
  requests (fst (exec (bind (await_generateContent req)
                            (fun response => Ret (f response))) env w))
  = (requests w ++ [req])%list.
Proof.
  destruct env as [|[r|e] env']; reflexivity.
Qed.

Lemma first_part_is_first_payload (r : GenerateContentResponse) :
  first_part_inline_data r = None
  \/ first_part_inline_data r = first_inline_payload r.
Proof.
  unfold first_part_inline_data, first_inline_payload, inline_payloads,
    all_parts.
  destruct (candidates r) as [[|c cs]|]; simpl; auto.
  destruct (content c) as [ct|]; simpl; auto.
  destruct (parts ct) as [[|p ps]|]; simpl; auto.
  destruct (inlineData p) as [b|]; simpl; auto.
  destruct (data b) as [d|]; simpl; auto.
Qed.

(** C2, as stated, fails: on a response whose only inline audio payload is
    carried by the second part of the first candidate, [generateSpeech]
    returns nothing although the response contains an inline payload. *)
Lemma generateSpeech_misses_later_payload :
  snd (exec (generateSpeech unit "hello")
            [Resolved Samples.audio_in_second_part] (init_world tt))
  = Done None
  /\ first_inline_payload Samples.audio_in_second_part = Some "UklGRg==".
Proof. split; reflexivity. Qed.

(** C2, amended: once the endpoint has answered, [generateSpeech] has sent
    its one request and returns the inline data of the first part of the
    first candidate: when that part carries an inline payload, its data,
    whatever follows; when it carries none, nothing, even if later parts or
    candidates carry inline audio; and nothing when there are no candidates,
    no content or no parts.  What it returns is thus either nothing or the
    first inline payload of the whole response. *)
Theorem generateSpeech_returns_first_part_payload (St : Type) (t : string)
    (r : GenerateContentResponse) (env : list Outcome) (w : World St) :
  let returned response :=
    snd (exec (generateSpeech St t) (Resolved response :: env) w) in
  exec (generateSpeech St t) (Resolved r :: env) w
  = (send w (generateSpeech_request t), Done (first_part_inline_data r))
  /\ (forall role ptxt mime d ps cs txt,
        returned
          {| candidates :=
               Some ({| content :=
                          Some {| content_role := role;
                                  parts :=
                                    Some ({| part_text := ptxt;
                                             inlineData :=
                                               Some {| mimeType := mime;
                                                       data := d |} |}
                                          :: ps) |} |} :: cs);
             response_text := txt |}
        = Done d)
  /\ (forall role ptxt ps cs txt,
        returned
          {| candidates :=
               Some ({| content :=
                          Some {| content_role := role;
                                  parts :=
                                    Some ({| part_text := ptxt;
                                             inlineData := None |} :: ps) |} |}
                     :: cs);
             response_text := txt |}
        = Done None)
  /\ (forall role cs txt,
        returned {| candidates := None; response_text := txt |} = Done None
        /\ returned {| candidates := Some []; response_text := txt |}
           = Done None
        /\ returned {| candidates := Some ({| content := None |} :: cs);
                       response_text := txt |} = Done None
        /\ returned
             {| candidates :=
                  Some ({| content := Some {| content_role := role;
                                              parts := None |} |} :: cs);
                response_text := txt |} = Done None
        /\ returned
             {| candidates :=
                  Some ({| content := Some {| content_role := role;
                                              parts := Some [] |} |} :: cs);
                response_text := txt |} = Done None)
  /\ (returned r = Done None \/ returned r = Done (first_inline_payload r)).
Proof.
  cbv zeta. split; [reflexivity|]. split; [reflexivity|].
  split; [reflexivity|]. split; [repeat split|].
  cbn. destruct (first_part_is_first_payload r) as [E|E]; rewrite E; auto.
Qed.

Lemma generateSpeech_returns_first_part_payload_witness :
  snd (exec (generateSpeech unit "hello")
         [Resolved Samples.audio_in_first_part] (init_world tt))
  = Done (Some "UklGRg==").
Proof.
  exact (proj1 (proj2 (@generateSpeech_returns_first_part_payload unit
                  "hello" Samples.audio_in_first_part [] (init_world tt)))
           (Some model) None (Some "audio/wav") (Some "UklGRg==") [] [] None).
Defined.

(** C9, as stated, fails: for a data URI whose payload contains a comma the
    inline data is only the payload's first comma-separated field, not the
    string with its data-URI prefix stripped. *)
Lemma describeImage_cuts_payload_at_comma :
  turn_parts Samples.plain_data_uri "What is this?"
  = [ inline_part "image/jpeg" (Some "a"); text_part "What is this?" ]
  /\ turn_parts Samples.plain_data_uri "What is this?"
     <> [ inline_part "image/jpeg"
            (strip_data_uri_prefix Samples.plain_data_uri);
          text_part "What is this?" ].
Proof.
  split.
  - reflexivity.
  - vm_compute. discriminate.
Qed.

(** C9, amended: [describeImage] sends one request whose contents are the
    history turns, each a role-tagged single text part, followed by the
    current turn; with an image present the turn's parts are an inline JPEG
    payload and then the prompt, without one the prompt alone.  The payload's
    data is what follows the first comma of the image string, cut at the next
    comma (absent when there is no comma); for a header and a payload free of
    commas, as in a base64 data URI, it is the payload. *)
Theorem describeImage_request_contents (St : Type) (img prompt : string)
    (history : list Message) (language : option string)
    (env : list Outcome) (w : World St) :
  requests (fst (exec (describeImage St img prompt history language) env w))
  = (requests w ++ [describeImage_request img prompt history language])%list
  /\ contents (describeImage_request img prompt history language)
     = (map (fun m => {| content_role := Some (role m);
                         parts := Some [text_part (text m)] |}) history
        ++ [ {| content_role := None;
                parts :=
                  Some (if Js.truthy img
                        then [ inline_part "image/jpeg"
                                 (option_map (until Js.comma)
                                    (strip_data_uri_prefix img));
                               text_part prompt ]
                        else [ text_part prompt ]) |} ])%list
  /\ (forall hdr payload,
        img = hdr ++ String Js.comma payload ->
        Js.contains Js.comma hdr = false ->
        Js.contains Js.comma payload = false ->
        option_map (until Js.comma) (strip_data_uri_prefix img)
        = Some payload).
Proof.
  split; [|split].
  - apply gateway_sends_once.
  - unfold describeImage_request, turn_parts, imagePart.
    rewrite split_second_field.
    destruct (Js.truthy img); reflexivity.
  - intros hdr payload -> Hh Hp.
    rewrite strip_after_header by exact Hh.
    simpl. now rewrite until_no_sep.
Qed.

Lemma describeImage_request_contents_witness :
  option_map (until Js.comma) (strip_data_uri_prefix Samples.jpeg_data_uri)
  = Some "/9j/4AAQ".
Proof.
  apply (proj2 (proj2 (describeImage_request_contents
                         (St := unit) Samples.jpeg_data_uri "What is this?"
                         [] None [] (init_world tt)))
           "data:image/jpeg;base64" "/9j/4AAQ");
    reflexivity.
Defined.

End GeminiFacts.

(* ------------------------------------------------------------------ *)
(** ** Properties of the conversation controller *)

Module AppFacts.

Import Genai Async App Stated.

Lemma or_else_truthy (t d : string) :
  Js.truthy t = true -> Js.or_else (Some t) d = t.
Proof. intros H. simpl. now rewrite H. Qed.

Lemma or_else_falsy (t d : string) :
  Js.truthy t = false -> Js.or_else (Some t) d = d.
Proof. intros H. simpl. now rewrite H. Qed.

Lemma or_undefined_truthy (o : option string) :
  Js.truthy_opt o = true -> Js.or_undefined o = o.
Proof.
  destruct o as [t|]; simpl; intros H; [now rewrite H | discriminate].
Qed.

(** Unfold a call of [handleSend] whose guard has been decided. *)
Ltac enter_handleSend Hguard :=
  unfold handleSend; cbv zeta; rewrite Hguard.

(** Split on the endpoint's answers as far as one turn consumes them. *)
Ltac split_answers env :=
  let r := fresh "r" in
  let e := fresh "e" in
  let rest := fresh "rest" in
  destruct env as [|[r|e] rest].

(** Follow one turn through its awaits: split on what the endpoint answers,
    on the speech switch the handler closed over and on whether audio came
    back. *)
Ltac follow_turn :=
  repeat (cbn;
          match goal with
          | |- context [exec _ ?env _] =>
              is_var env; destruct env as [|[?r|?e] ?rest]
          | |- context [match ?env with [] => _ | _ :: _ => _ end] =>
              is_var env; destruct env as [|[?r|?e] ?rest]
          | |- context [if isTtsEnabled ?c then _ else _] =>
              destruct (isTtsEnabled c) eqn:?
          | |- context [Js.truthy_opt (Gemini.first_part_inline_data ?r)] =>
              destruct (Js.truthy_opt (Gemini.first_part_inline_data r)) eqn:?
          end);
  cbn.

Lemma guard_open (c : State) (textOverride : option string) :
  Js.truthy (Js.or_else textOverride (input c)) || Js.truthy_opt (image c)
  = true ->
  negb (Js.truthy (Js.or_else textOverride (input c)))
  && negb (Js.truthy_opt (image c)) = false.
Proof. destruct (Js.truthy _), (Js.truthy_opt _); easy. Qed.

(** C5: submitting with empty text and no pending image does nothing: the
    handler returns at once, so the component state (conversation, pending
    attachment, status and all) and the list of requests sent are unchanged,
    and nothing is left in flight. *)
Theorem handleSend_nothing_to_send (c : State) (textOverride : option string)
    (env : list Outcome) (w : World State) (m : Machine) :
  Js.truthy (Js.or_else textOverride (input c)) = false ->
  Js.truthy_opt (image c) = false ->
  exec (handleSend c textOverride) env w = (w, Done tt)
  /\ invoke m (handleSend c textOverride) = m.
Proof.
  intros Ht Hi.
  assert (G : handleSend c textOverride = Ret tt).
  { unfold handleSend. now rewrite Ht, Hi. }
  rewrite G. split.
  - reflexivity.
  - now destruct m.
Qed.

Lemma handleSend_nothing_to_send_witness :
  exec (handleSend initial None) [] (init_world initial)
  = (init_world initial, Done tt)
  /\ invoke boot (handleSend initial None) = boot.
Proof.
  apply (handleSend_nothing_to_send initial None [] (init_world initial) boot);
    reflexivity.
Defined.

(** C3: when the text-generation call of a submitted turn throws, the turn
    ends having appended the user Message and then exactly one model Message
    with the fixed error text, with status idle and loading off; the analysis
    request is the only one sent. *)
Theorem handleSend_inference_throws (c : State) (textOverride : option string)
    (e : Error) (env : list Outcome) (w : World State) :
  Js.truthy (Js.or_else textOverride (input c)) || Js.truthy_opt (image c)
  = true ->
  let text := Js.or_else textOverride (input c) in
  let userMsg :=
    {| Gemini.role := user;
       Gemini.text := Js.or_else (Some text) default_user_text;
       Gemini.image := Js.or_undefined (image c);
       Gemini.audio := None |} in
  let errorMsg :=
    {| Gemini.role := model; Gemini.text := error_text;
       Gemini.image := None; Gemini.audio := None |} in
  let w' := fst (exec (handleSend c textOverride) (Rejected e :: env) w) in
  snd (exec (handleSend c textOverride) (Rejected e :: env) w) = Done tt
  /\ messages (app w') = (messages (app w) ++ [userMsg; errorMsg])%list
  /\ status (app w') = idle
  /\ isLoading (app w') = false
  /\ requests w'
     = (requests w
        ++ [Gemini.describeImage_request (Js.or_else (image c) "")
              (Js.or_else (Some text) default_prompt) (messages c)
              (Some (selectedLanguage c))])%list.
Proof.
  intros Hg text userMsg errorMsg. subst text userMsg errorMsg.
  enter_handleSend (guard_open c textOverride Hg).
  cbn. rewrite <- app_assoc. repeat split.
Qed.

Lemma handleSend_inference_throws_witness :
  messages (app (fst (turn (Samples.typed "hi") None [Rejected "offline"])))
  = [ {| Gemini.role := user; Gemini.text := "hi";
         Gemini.image := None; Gemini.audio := None |};
      {| Gemini.role := model; Gemini.text := error_text;
         Gemini.image := None; Gemini.audio := None |} ].
Proof.
  exact (proj1 (proj2 (handleSend_inference_throws
                         (Samples.typed "hi") None "offline" []
                         (init_world (Samples.typed "hi")) eq_refl))).
Defined.

(** C4, as stated, fails: with speech output enabled, a turn whose analysis
    succeeds but whose speech-synthesis call throws appends two model
    Messages after the user Message, the answer and the fixed error text. *)
Lemma speech_failure_appends_second_model_message :
  messages (app (fst (turn (Samples.typed "hi") None
                        [Resolved (Samples.answer "a cat");
                         Rejected "unavailable"])))
  = [ {| Gemini.role := user; Gemini.text := "hi";
         Gemini.image := None; Gemini.audio := None |};
      {| Gemini.role := model; Gemini.text := "a cat";
         Gemini.image := None; Gemini.audio := None |};
      {| Gemini.role := model; Gemini.text := error_text;
         Gemini.image := None; Gemini.audio := None |} ]
  /\ ~ appends_user_then_model
         (messages (Samples.typed "hi"))
         (messages (app (fst (turn (Samples.typed "hi") None
                                [Resolved (Samples.answer "a cat");
                                 Rejected "unavailable"])))).
Proof.
  split.
  - reflexivity.
  - intros (u & m & _ & _ & H). cbn in H. discriminate H.
Qed.

(** C4, amended: a submission with non-empty text appends exactly one user
    Message, at once and before anything else, and whatever else the turn
    appends are model Messages; when the analysis succeeds and the
    speech-synthesis call, if one is made, does not throw, the conversation
    is changed by exactly the user Message followed by one model Message
    carrying the answer (or the fallback text). *)
Theorem handleSend_appends_user_then_model (c : State)
    (textOverride : option string) (r : GenerateContentResponse)
    (env : list Outcome) (w : World State) :
  Js.truthy (Js.or_else textOverride (input c)) = true ->
  isTtsEnabled c && speech_rejected env = false ->
  let userMsg :=
    {| Gemini.role := user;
       Gemini.text := Js.or_else textOverride (input c);
       Gemini.image := Js.or_undefined (image c);
       Gemini.audio := None |} in
  let modelMsg :=
    {| Gemini.role := model;
       Gemini.text := Js.or_else (response_text r) fallback_text;
       Gemini.image := None; Gemini.audio := None |} in
  messages (app (fst (exec (handleSend c textOverride) [] w)))
  = (messages (app w) ++ [userMsg])%list
  /\ messages (app (fst (exec (handleSend c textOverride)
                           (Resolved r :: env) w)))
     = (messages (app w) ++ [userMsg; modelMsg])%list
  /\ (forall answers, exists replies,
        messages (app (fst (exec (handleSend c textOverride) answers w)))
        = (messages (app w) ++ userMsg :: replies)%list
        /\ all_model replies = true).
Proof.
  intros Ht Hs userMsg modelMsg. subst userMsg modelMsg.
  assert (G : negb (Js.truthy (Js.or_else textOverride (input c)))
              && negb (Js.truthy_opt (image c)) = false)
    by now rewrite Ht.
  split; [|split].
  - enter_handleSend G. rewrite !(or_else_truthy _ _ Ht). reflexivity.
  - enter_handleSend G. rewrite !(or_else_truthy _ _ Ht). follow_turn;
      rewrite <- ?app_assoc; try reflexivity; discriminate Hs.
  - intros answers. enter_handleSend G. rewrite !(or_else_truthy _ _ Ht).
    follow_turn; rewrite <- ?app_assoc; cbn; eexists; split; reflexivity.
Qed.

Lemma handleSend_appends_user_then_model_witness :
  messages (app (fst (turn (Samples.typed "hi") None
                        [Resolved (Samples.answer "a cat");
                         Resolved Samples.audio_in_first_part])))
  = [ {| Gemini.role := user; Gemini.text := "hi";
         Gemini.image := None; Gemini.audio := None |};
      {| Gemini.role := model; Gemini.text := "a cat";
         Gemini.image := None; Gemini.audio := None |} ].
Proof.
  exact (proj1 (proj2 (handleSend_appends_user_then_model
                         (Samples.typed "hi") None (Samples.answer "a cat")
                         [Resolved Samples.audio_in_first_part]
                         (init_world (Samples.typed "hi"))
                         eq_refl eq_refl))).
Defined.

Lemma speech_request_recognised (t : string) :
  Gemini.is_speech_request (Gemini.generateSpeech_request t) = true.
Proof. reflexivity. Qed.

Lemma no_speech_request (reqs : list GenerateContentParameters) :
  existsb Gemini.is_speech_request reqs = false ->
  forall t, ~ In (Gemini.generateSpeech_request t) reqs.
Proof.
  intros H t Hin.
  assert (E : existsb Gemini.is_speech_request reqs = true).
  { apply existsb_exists. exists (Gemini.generateSpeech_request t).
    split; [exact Hin | apply speech_request_recognised]. }
  congruence.
Qed.

(** A turn whose handler was created with speech output disabled, run on
    its own: no request to the speech model is sent, the status never moves
    into speaking along the states it goes through, and no audio is
    started. *)
Lemma muted_turn_on_its_own (c : State) (textOverride : option string)
    (env : list Outcome) (s : State) :
  isTtsEnabled c = false ->
  let w' := fst (exec (handleSend c textOverride) env (init_world s)) in
  existsb Gemini.is_speech_request (requests w') = false
  /\ (forall t, ~ In (Gemini.generateSpeech_request t) (requests w'))
  /\ enters_speaking (status s) (visited w') = false
  /\ playing w' = [].
Proof.
  intros Htts w'.
  assert (R : existsb Gemini.is_speech_request (requests w') = false).
  { subst w'. unfold handleSend. cbv zeta. rewrite Htts.
    destruct (negb _ && negb _); [reflexivity|].
    follow_turn; reflexivity. }
  split; [exact R|]. split; [exact (no_speech_request _ R)|].
  subst w'. unfold handleSend. cbv zeta. rewrite Htts.
  destruct (negb _ && negb _).
  - split; reflexivity.
  - follow_turn; split; try reflexivity; destruct (status s); reflexivity.
Qed.

(** C10: a turn submitted with empty text and a pending image appends a user
    Message whose text is "Analyze this image", while the prompt passed to
    [describeImage], and so sent in the first request, is "What do you see
    in this image?"; the two strings differ. *)
Theorem handleSend_image_only_texts (c : State) (textOverride : option string)
    (env : list Outcome) (s : State) :
  Js.truthy (Js.or_else textOverride (input c)) = false ->
  Js.truthy_opt (image c) = true ->
  let w' := fst (exec (handleSend c textOverride) env (init_world s)) in
  (exists replies,
     messages (app w')
     = (messages s
        ++ {| Gemini.role := user; Gemini.text := "Analyze this image";
              Gemini.image := image c; Gemini.audio := None |}
           :: replies)%list)
  /\ (exists later,
        requests w'
        = Gemini.describeImage_request (Js.or_else (image c) "")
            "What do you see in this image?" (messages c)
            (Some (selectedLanguage c)) :: later)
  /\ "Analyze this image" <> "What do you see in this image?".
Proof.
  intros Ht Hi.
  assert (G : negb (Js.truthy (Js.or_else textOverride (input c)))
              && negb (Js.truthy_opt (image c)) = false)
    by (rewrite Hi; apply andb_false_r).
  enter_handleSend G. rewrite !(or_else_falsy _ _ Ht).
  rewrite (or_undefined_truthy _ Hi).
  split; [|split].
  - follow_turn; rewrite <- ?app_assoc; cbn; eexists; reflexivity.
  - follow_turn; eexists; reflexivity.
  - discriminate.
Qed.

Lemma handleSend_image_only_texts_witness :
  exists later,
    requests (fst (turn (Samples.attached Samples.jpeg_data_uri) None []))
    = Gemini.describeImage_request Samples.jpeg_data_uri
        "What do you see in this image?" [] (Some "English") :: later.
Proof.
  exact (proj1 (proj2 (handleSend_image_only_texts
                         (Samples.attached Samples.jpeg_data_uri) None []
                         (Samples.attached Samples.jpeg_data_uri)
                         eq_refl eq_refl))).
Defined.

Lemma export_line (m : Gemini.Message) :
  Js.toUpperCase (role_name (Gemini.role m)) ++ ": " ++ Gemini.text m
  = transcript_line m.
Proof. unfold transcript_line. now destruct (Gemini.role m). Qed.

Lemma export_lines (ms : list Gemini.Message) :
  map (fun m => Js.toUpperCase (role_name (Gemini.role m)) ++ ": "
                ++ Gemini.text m) ms
  = map transcript_line ms.
Proof. apply map_ext. exact export_line. Qed.

Lemma lines_without_media (ms : list Gemini.Message) :
  map transcript_line (map strip_media ms) = map transcript_line ms.
Proof. rewrite map_map. now apply map_ext. Qed.

(** C6: the export is the conversation's messages in order, each rendered
    as its upper-cased role, ": " and its text, with one blank line (two
    line feeds) between consecutive messages and nothing around them; on
    [{user,"hi"},{model,"hello"}] it is "USER: hi", a blank line, then
    "MODEL: hello"; images and audio do not occur in it, the export of a
    conversation being that of the same conversation without its media. *)
Theorem downloadConversation_transcript (s : State) (m : Gemini.Message)
    (ms : list Gemini.Message) :
  downloadConversation (setMessages (fun _ => []) s) = ""
  /\ match ms with
     | [] => downloadConversation (setMessages (fun _ => [m]) s)
             = transcript_line m
     | _ :: _ => downloadConversation (setMessages (fun _ => m :: ms) s)
                 = transcript_line m ++ Js.newline ++ Js.newline
                   ++ downloadConversation (setMessages (fun _ => ms) s)
     end
  /\ downloadConversation (setMessages (fun _ => Samples.greeting) s)
     = "USER: hi" ++ Js.newline ++ Js.newline ++ "MODEL: hello"
  /\ downloadConversation (setMessages (map strip_media) s)
     = downloadConversation s.
Proof.
  unfold downloadConversation; cbn [messages setMessages].
  repeat split.
  - destruct ms as [|m' ms']; rewrite !export_lines; reflexivity.
  - now rewrite !export_lines, lines_without_media.
Qed.

(** C7: from every prior state, whatever is in flight, clearing leaves an
    empty conversation, no pending image and the status idle. *)
Theorem clearChat_resets (m : Machine) :
  let s' := app (world (step m ClickClear)) in
  s' = clearChat (app (world m))
  /\ messages s' = [] /\ image s' = None /\ status s' = idle.
Proof. repeat split. Qed.

(** The send button is inert while a turn is loading. *)
Lemma click_send_blocked_while_loading (m : Machine) :
  isLoading (app (world m)) = true -> step m ClickSend = m.
Proof.
  intros H. unfold step, send_disabled. now rewrite H.
Qed.

(** The Enter key starts a turn whenever there is text, loading or not. *)
Lemma enter_key_ignores_loading (m : Machine) :
  Js.truthy (input (app (world m))) = true ->
  List.length (inflight (step m (KeyDown "Enter")))
  = S (List.length (inflight m)).
Proof.
  intros H. cbn [step String.eqb Ascii.eqb Bool.eqb].
  unfold invoke.
  assert (G : negb (Js.truthy (Js.or_else None (input (app (world m)))))
              && negb (Js.truthy_opt (image (app (world m)))) = false)
    by (cbn [Js.or_else]; now rewrite H).
  enter_handleSend G. cbn.
  rewrite length_app. cbn. lia.
Qed.

(** C1, evaluated on the code: after typing "a", pressing Enter and typing
    "b", the loading flag is set, one analysis request is in flight and the
    send button is disabled and inert; pressing Enter nevertheless starts a
    second turn, leaving two analysis requests in flight at once. *)
Theorem enter_key_starts_second_turn_while_loading :
  isLoading (app (world Samples.typing_while_loading)) = true
  /\ List.length (inflight Samples.typing_while_loading) = 1
  /\ send_disabled (app (world Samples.typing_while_loading)) = true
  /\ step Samples.typing_while_loading ClickSend
     = Samples.typing_while_loading
  /\ List.length
       (inflight (step Samples.typing_while_loading (KeyDown "Enter"))) = 2
  /\ map Gemini.is_analyze_request
       (requests (world (step Samples.typing_while_loading (KeyDown "Enter"))))
     = [true; true]
  /\ isLoading
       (app (world (step Samples.typing_while_loading (KeyDown "Enter"))))
     = true.
Proof. repeat split. Qed.

End AppFacts.

(* ------------------------------------------------------------------ *)
(** ** Edge cases of the image payload *)

Module GatewayEdge.

Import Genai Async Gemini Stated GeminiFacts.

Lemma strip_without_comma (s : string) :
  Js.contains Js.comma s = false -> strip_data_uri_prefix s = None.
Proof.
  induction s as [|c rest IH]; cbn; intros H.
  - reflexivity.
  - apply orb_false_iff in H as [Hc Hr]. rewrite Hc. now apply IH.
Qed.

Lemma truthy_with_comma (hdr payload : string) :
  Js.truthy (hdr ++ String Js.comma payload) = true.
Proof. now destruct hdr. Qed.

(** X14: for a non-empty image string without a comma (not a data URI),
    [describeImage] still sends an inline JPEG part, its data absent,
    followed by the prompt. *)
Theorem describeImage_without_comma (img prompt : string) :
  Js.truthy img = true ->
  Js.contains Js.comma img = false ->
  turn_parts img prompt
  = [ {| part_text := None;
         inlineData := Some {| mimeType := Some "image/jpeg";
                               data := None |} |};
      text_part prompt ].
Proof.
  intros Ht Hc. unfold turn_parts, imagePart.
  rewrite Ht, split_second_field, (strip_without_comma _ Hc). reflexivity.
Qed.

Lemma describeImage_without_comma_witness :
  turn_parts "not a data uri" "What is this?"
  = [ {| part_text := None;
         inlineData := Some {| mimeType := Some "image/jpeg";
                               data := None |} |};
      text_part "What is this?" ].
Proof.
  exact (@describeImage_without_comma "not a data uri" "What is this?"
           eq_refl eq_refl).
Defined.

(** X15: the header of the image string does not reach the request: two
    image strings with the same text after their first comma give the same
    request, so the declared type is image/jpeg whatever the upload's own
    media type was. *)
Theorem describeImage_ignores_header (hdr1 hdr2 payload prompt : string)
    (history : list Message) (language : option string) :
  Js.contains Js.comma hdr1 = false ->
  Js.contains Js.comma hdr2 = false ->
  describeImage_request (hdr1 ++ String Js.comma payload) prompt history
    language
  = describeImage_request (hdr2 ++ String Js.comma payload) prompt history
      language.
Proof.
  intros H1 H2. unfold describeImage_request, turn_parts, imagePart.
  rewrite !truthy_with_comma, !split_second_field.
  now rewrite (strip_after_header _ payload H1),
              (strip_after_header _ payload H2).
Qed.

Lemma describeImage_ignores_header_witness :
  describeImage_request "data:image/png;base64,iVBORw0KGgo" "What is this?"
    [] None
  = describeImage_request "data:image/jpeg;base64,iVBORw0KGgo"
      "What is this?" [] None.
Proof.
  exact (@describeImage_ignores_header
           "data:image/png;base64" "data:image/jpeg;base64" "iVBORw0KGgo"
           "What is this?" [] None eq_refl eq_refl).
Defined.

End GatewayEdge.

(* ------------------------------------------------------------------ *)
(** ** Properties of turns and sessions *)

Module SessionFacts.

Import Genai Async App Stated AppFacts Session.

(** *** One turn *)

(** X1: a turn, however far it gets, leaves the pending image, the selected
    language, the speech switch and the recording flag as they were; in
    particular the image stays attached after it has been sent. *)
Theorem handleSend_keeps_attachment_and_settings (c : State)
    (textOverride : option string) (env : list Outcome) (w : World State) :
  let s' := app (fst (exec (handleSend c textOverride) env w)) in
  image s' = image (app w)
  /\ selectedLanguage s' = selectedLanguage (app w)
  /\ isTtsEnabled s' = isTtsEnabled (app w)
  /\ isRecording s' = isRecording (app w).
Proof.
  unfold handleSend. cbv zeta.
  destruct (negb _ && negb _).
  - repeat split.
  - follow_turn; repeat split.
Qed.

(** X2: [handleSend] never ends with an exception escaping it, whatever the
    endpoint answers. *)
Theorem handleSend_never_uncaught (c : State) (textOverride : option string)
    (env : list Outcome) (w : World State) (e : Error) :
  snd (exec (handleSend c textOverride) env w) <> Uncaught e.
Proof.
  unfold handleSend. cbv zeta.
  destruct (negb _ && negb _).
  - discriminate.
  - follow_turn; discriminate.
Qed.

Lemma handleSend_never_uncaught_witness :
  snd (turn (Samples.typed "hi") None [Rejected "offline"])
  <> Uncaught "offline".
Proof.
  exact (@handleSend_never_uncaught (Samples.typed "hi") None
           [Rejected "offline"] (init_world (Samples.typed "hi")) "offline").
Defined.

(** X3: a submitted turn that has run to its end has switched loading off
    and emptied the text field; its status is idle with no audio started, or
    speaking with one audio element started on a non-empty payload whose end
    sets the status to idle. *)
Theorem handleSend_completion (c : State) (textOverride : option string)
    (env : list Outcome) (w : World State) :
  Js.truthy (Js.or_else textOverride (input c)) || Js.truthy_opt (image c)
  = true ->
  snd (exec (handleSend c textOverride) env w) = Done tt ->
  let w' := fst (exec (handleSend c textOverride) env w) in
  isLoading (app w') = false
  /\ input (app w') = ""
  /\ ((status (app w') = idle /\ playing w' = playing w)
      \/ (status (app w') = speaking
          /\ exists d, Js.truthy d = true
             /\ playing w'
                = (playing w
                   ++ [(("data:audio/wav;base64," ++ d)%string,
                        setStatus idle)])%list)).
Proof.
  intros Hg. enter_handleSend (guard_open c textOverride Hg).
  follow_turn; intros Hd; try discriminate Hd;
    (split; [reflexivity|]); (split; [reflexivity|]);
    first
      [ left; split; reflexivity
      | right; split; [reflexivity|];
        match goal with
        | H : Js.truthy_opt (Gemini.first_part_inline_data ?r) = true |- _ =>
            destruct (Gemini.first_part_inline_data r) as [d|];
            [ exists d; split; [exact H|]; cbn in H |- *; now rewrite H
            | discriminate H ]
        end ].
Qed.

Lemma handleSend_completion_witness :
  isLoading (app (fst (turn (Samples.muted "hi") None
                         [Resolved (Samples.answer "a cat")])))
  = false.
Proof.
  exact (proj1 (@handleSend_completion (Samples.muted "hi") None
                  [Resolved (Samples.answer "a cat")]
                  (init_world (Samples.muted "hi")) eq_refl eq_refl)).
Defined.

(** X4: with speech enabled, when the analysis succeeds and the speech call
    throws, the turn ends normally: the answer and then the fixed error
    Message follow the user Message, the error is logged, the status is idle,
    loading is off and no audio is started. *)
Theorem handleSend_speech_throws (c : State) (textOverride : option string)
    (r : GenerateContentResponse) (e : Error) (env : list Outcome)
    (w : World State) :
  Js.truthy (Js.or_else textOverride (input c)) || Js.truthy_opt (image c)
  = true ->
  isTtsEnabled c = true ->
  let text := Js.or_else textOverride (input c) in
  let userMsg :=
    {| Gemini.role := user;
       Gemini.text := Js.or_else (Some text) default_user_text;
       Gemini.image := Js.or_undefined (image c);
       Gemini.audio := None |} in
  let errorMsg :=
    {| Gemini.role := model; Gemini.text := error_text;
       Gemini.image := None; Gemini.audio := None |} in
  let run := exec (handleSend c textOverride)
               (Resolved r :: Rejected e :: env) w in
  snd run = Done tt
  /\ messages (app (fst run))
     = (messages (app w) ++ [userMsg; reply r; errorMsg])%list
  /\ status (app (fst run)) = idle
  /\ isLoading (app (fst run)) = false
  /\ logged (fst run) = (logged w ++ [e])%list
  /\ playing (fst run) = playing w.
Proof.
  intros Hg Ht text userMsg errorMsg. subst text userMsg errorMsg.
  enter_handleSend (guard_open c textOverride Hg). rewrite Ht.
  cbn. rewrite <- !app_assoc. repeat split.
Qed.

Lemma handleSend_speech_throws_witness :
  status (app (fst (turn (Samples.typed "hi") None
                      [Resolved (Samples.answer "a cat");
                       Rejected "unavailable"])))
  = idle.
Proof.
  exact (proj1 (proj2 (proj2
           (@handleSend_speech_throws (Samples.typed "hi") None
              (Samples.answer "a cat") "unavailable" []
              (init_world (Samples.typed "hi")) eq_refl eq_refl)))).
Defined.

(** X5: with speech enabled and both calls answered, the turn ends with
    loading off and nothing logged, having sent two requests, one of them the
    speech request for the very text of the reply; a non-empty audio payload
    in the first part leaves the status speaking with that payload playing as
    a WAV data URI, anything else leaves the status idle and plays nothing. *)
Theorem handleSend_speech_answered (c : State) (textOverride : option string)
    (r r' : GenerateContentResponse) (env : list Outcome) (w : World State) :
  Js.truthy (Js.or_else textOverride (input c)) || Js.truthy_opt (image c)
  = true ->
  isTtsEnabled c = true ->
  let run := exec (handleSend c textOverride)
               (Resolved r :: Resolved r' :: env) w in
  snd run = Done tt
  /\ isLoading (app (fst run)) = false
  /\ logged (fst run) = logged w
  /\ List.length (requests (fst run)) = List.length (requests w) + 2
  /\ In (Gemini.generateSpeech_request (Gemini.text (reply r)))
        (requests (fst run))
  /\ match Gemini.first_part_inline_data r' with
     | Some (String a d) =>
         status (app (fst run)) = speaking
         /\ playing (fst run)
            = (playing w
               ++ [(("data:audio/wav;base64," ++ String a d)%string,
                    setStatus idle)])%list
     | _ => status (app (fst run)) = idle /\ playing (fst run) = playing w
     end.
Proof.
  intros Hg Ht.
  enter_handleSend (guard_open c textOverride Hg). rewrite Ht.
  cbn.
  destruct (Gemini.first_part_inline_data r') as [[|a d]|]; cbn;
    rewrite !length_app; cbn;
    (repeat split; [lia | apply in_or_app; right; now left]).
Qed.

Lemma handleSend_speech_answered_witness :
  isLoading (app (fst (turn (Samples.typed "hi") None
                         [Resolved (Samples.answer "a cat");
                          Resolved Samples.audio_in_first_part])))
  = false.
Proof.
  exact (proj1 (proj2
           (@handleSend_speech_answered (Samples.typed "hi") None
              (Samples.answer "a cat") Samples.audio_in_first_part []
              (init_world (Samples.typed "hi")) eq_refl eq_refl))).
Defined.

(** *** The event loop *)

Lemma suspension_ignores_world (A : Type) (h : Proc State A)
    (w1 w2 : World State) :
  snd (exec h [] w1) = snd (exec h [] w2).
Proof.
  revert w1 w2.
  induction h as [a|e|f k IH|req ok IHok err IHerr|e k IH|src cb k IH];
    intros w1 w2; cbn; auto.
Qed.

Lemma invoke_world (m : Machine) (h : Handler) :
  world (invoke m h) = fst (exec h [] (world m)).
Proof.
  unfold invoke. now destruct (exec h [] (world m)) as [w' [a|e|ok err]].
Qed.

Lemma invoke_inflight (m : Machine) (h : Handler) :
  inflight (invoke m h)
  = (inflight m
     ++ match pending_of h with Some p => [p] | None => [] end)%list.
Proof.
  unfold invoke, pending_of.
  rewrite (suspension_ignores_world h (init_world initial) (world m)).
  destruct (exec h [] (world m)) as [w' [a|e|ok err]]; cbn;
    now rewrite ?app_nil_r.
Qed.

Lemma Forall_remove_nth (A : Type) (P : A -> Prop) (i : nat) (xs : list A) :
  Forall P xs -> Forall P (remove_nth i xs).
Proof.
  intros H. revert i.
  induction H as [|x xs Hx Hxs IH]; intros [|i]; cbn; auto.
Qed.

Lemma length_remove_nth (A : Type) (xs : list A) (i : nat) :
  i < List.length xs ->
  List.length (remove_nth i xs) = List.length xs - 1.
Proof.
  revert i. induction xs as [|x xs IH]; intros i Hi; cbn in *.
  - lia.
  - destruct i as [|i]; cbn; [lia|].
    rewrite IH by lia. lia.
Qed.

Lemma run_app (m : Machine) (evs1 evs2 : list Event) :
  run m (evs1 ++ evs2) = run (run m evs1) evs2.
Proof. apply fold_left_app. Qed.

(** Bring a turn waiting for its analysis to its concrete continuation. *)
Ltac open_analysis H :=
  let c := fresh "c" in
  let o := fresh "o" in
  let E := fresh "E" in
  destruct H as (c & o & E);
  unfold pending_of, handleSend in E; cbv zeta in E;
  destruct (negb (Js.truthy (Js.or_else o (input c)))
            && negb (Js.truthy_opt (image c)));
  [ discriminate E | cbn in E; injection E as <- ].

(** The same for a turn waiting for its speech. *)
Ltac open_speech H :=
  let p1 := fresh "p" in
  let r := fresh "r" in
  let H1 := fresh "H" in
  let E := fresh "E" in
  destruct H as (p1 & r & H1 & E);
  open_analysis H1;
  unfold pending_of in E; cbn in E;
  match type of E with
  | context [isTtsEnabled ?c] => destruct (isTtsEnabled c)
  end;
  cbn in E; [ injection E as <- | discriminate E ].

Lemma start_turn (c : State) (o : option string) (w : World State) :
  let w' := fst (exec (handleSend c o) [] w) in
  playing w' = playing w
  /\ (exists more, messages (app w') = (messages (app w) ++ more)%list)
  /\ match pending_of (handleSend c o) with
     | Some p => awaits_analysis p /\ isLoading (app w') = true
     | None => w' = w
     end.
Proof.
  cbv zeta.
  destruct (pending_of (handleSend c o)) as [p|] eqn:E.
  - assert (H : awaits_analysis p) by (exists c, o; exact E).
    unfold pending_of, handleSend in E |- *. cbv zeta in E |- *.
    destruct (negb _ && negb _); [discriminate E|].
    cbn. repeat split; auto. eexists; reflexivity.
  - unfold pending_of, handleSend in E |- *. cbv zeta in E |- *.
    destruct (negb _ && negb _); [|discriminate E].
    cbn. repeat split. exists []. now rewrite app_nil_r.
Qed.

Lemma resume_analysis (p : Pending) (o : Outcome) (w : World State) :
  awaits_analysis p ->
  let w' := fst (exec (resume p o) [] w) in
  playing w' = playing w
  /\ (exists more, messages (app w') = (messages (app w) ++ more)%list)
  /\ match pending_of (resume p o) with
     | Some p' => awaits_speech p' /\ isLoading (app w') = isLoading (app w)
     | None => isLoading (app w') = false
     end.
Proof.
  intros H. cbv zeta.
  assert (S : forall p', pending_of (resume p o) = Some p' -> awaits_speech p').
  { destruct o as [r|e]; cbn [resume]; intros p' E.
    - now exists p, r.
    - open_analysis H. discriminate E. }
  open_analysis H.
  destruct o as [r|e]; cbn [resume on_resolve on_reject] in S |- *;
    unfold pending_of in S |- *; cbn in S |- *.
  - destruct (isTtsEnabled c); cbn in S |- *.
    + repeat split; [eexists; reflexivity | now apply S].
    + repeat split. eexists; reflexivity.
  - repeat split. eexists; reflexivity.
Qed.

Lemma resume_speech (p : Pending) (o : Outcome) (w : World State) :
  awaits_speech p ->
  let w' := fst (exec (resume p o) [] w) in
  pending_of (resume p o) = None
  /\ isLoading (app w') = false
  /\ requests w' = requests w
  /\ (exists more, messages (app w') = (messages (app w) ++ more)%list)
  /\ (exists started,
        playing w' = (playing w ++ started)%list
        /\ Forall (fun a => snd a = setStatus idle) started).
Proof.
  intros H. cbv zeta. open_speech H.
  destruct o as [r'|e]; cbn [resume on_resolve on_reject];
    unfold pending_of; cbn.
  - destruct (Js.truthy_opt (Gemini.first_part_inline_data r')); cbn;
      repeat split;
      try (exists []; now rewrite app_nil_r);
      try (eexists; split; [reflexivity|]; repeat constructor).
  - repeat split;
      try (eexists; reflexivity);
      try (exists []; split; [now rewrite app_nil_r | constructor]).
Qed.

Lemma resume_as_match (p : Pending) (o : Outcome) :
  match o with
  | Resolved r => on_resolve p r
  | Rejected e => on_reject p e
  end = resume p o.
Proof. reflexivity. Qed.

Lemma invoke_well_formed (m : Machine) (h : Handler) :
  well_formed m ->
  (forall p, pending_of h = Some p -> awaits_analysis p \/ awaits_speech p) ->
  (exists started,
      playing (fst (exec h [] (world m))) = (playing (world m) ++ started)%list
      /\ Forall (fun a => snd a = setStatus idle) started) ->
  well_formed (invoke m h).
Proof.
  intros [Hi Hp] Hs (started & E & Hst). split.
  - rewrite invoke_inflight. apply Forall_app. split; [exact Hi|].
    destruct (pending_of h) as [p|];
      [constructor; [exact (Hs p eq_refl) | constructor] | constructor].
  - rewrite invoke_world, E. apply Forall_app. now split.
Qed.

Lemma submit_well_formed (m : Machine) (c : State) (o : option string) :
  well_formed m -> well_formed (invoke m (handleSend c o)).
Proof.
  intros H. destruct (start_turn c o (world m)) as (P & _ & Q).
  apply invoke_well_formed; [exact H| |].
  - intros p E. rewrite E in Q. left. apply Q.
  - exists []. rewrite app_nil_r. split; [exact P | constructor].
Qed.

Lemma step_well_formed (m : Machine) (ev : Event) :
  well_formed m -> well_formed (step m ev).
Proof.
  intros H. destruct ev; cbn [step]; try exact H.
  - destruct (String.eqb key "Enter"); [now apply submit_well_formed | exact H].
  - destruct (send_disabled _); [exact H | now apply submit_well_formed].
  - destruct (_ && _); exact H.
  - destruct (nth_error (inflight m) i) as [p|] eqn:E; [|exact H].
    rewrite resume_as_match.
    destruct H as [Hi Hp].
    assert (Hstage : awaits_analysis p \/ awaits_speech p).
    { apply nth_error_In in E.
      exact (proj1 (Forall_forall _ _) Hi p E). }
    apply invoke_well_formed.
    + split; [now apply Forall_remove_nth | exact Hp].
    + intros p' E'. destruct Hstage as [Ha|Hs].
      * destruct (resume_analysis o (world m) Ha) as (_ & _ & Q).
        rewrite E' in Q. right. apply Q.
      * destruct (resume_speech o (world m) Hs) as (Q & _). congruence.
    + cbn [world]. destruct Hstage as [Ha|Hs].
      * destruct (resume_analysis o (world m) Ha) as (P & _).
        exists []. rewrite app_nil_r. split; [exact P | constructor].
      * destruct (resume_speech o (world m) Hs) as (_ & _ & _ & _ & Q).
        exact Q.
  - destruct (nth_error (playing (world m)) i) as [[src cb]|]; [|exact H].
    destruct H as [Hi Hp]. split; [exact Hi|]. cbn.
    now apply Forall_remove_nth.
Qed.

Lemma run_well_formed (evs : list Event) (m : Machine) :
  well_formed m -> well_formed (run m evs).
Proof.
  revert m. induction evs as [|ev evs IH]; intros m H; cbn.
  - exact H.
  - apply IH. now apply step_well_formed.
Qed.

Lemma boot_well_formed : well_formed boot.
Proof. split; constructor. Qed.

Lemma playing_callback (m : Machine) (i : nat) (src : string)
    (cb : State -> State) :
  well_formed m ->
  nth_error (playing (world m)) i = Some (src, cb) -> cb = setStatus idle.
Proof.
  intros [_ Hp] E. apply nth_error_In in E.
  exact (proj1 (Forall_forall _ _) Hp (src, cb) E).
Qed.

Lemma extends_refl (ms : list Gemini.Message) :
  exists more, ms = (ms ++ more)%list.
Proof. exists []. now rewrite app_nil_r. Qed.

Lemma passive_step (m : Machine) (ev : Event) :
  passive ev = true ->
  inflight (step m ev) = inflight m
  /\ requests (world (step m ev)) = requests (world m).
Proof.
  intros H. destruct ev; cbn [step]; try discriminate H; try (split; reflexivity).
  - cbn in H. apply negb_true_iff in H. rewrite H. split; reflexivity.
  - destruct (_ && _); split; reflexivity.
Qed.

Lemma passive_run (evs : list Event) (m : Machine) :
  forallb passive evs = true ->
  inflight (run m evs) = inflight m
  /\ requests (world (run m evs)) = requests (world m).
Proof.
  revert m. induction evs as [|ev evs IH]; intros m H; cbn.
  - split; reflexivity.
  - cbn in H. apply andb_true_iff in H as [Hev H].
    destruct (IH (step m ev) H) as [I R].
    destruct (passive_step m ev Hev) as [I' R'].
    unfold run in I, R. split; congruence.
Qed.

Lemma submit_effect (m : Machine) :
  let s := app (world m) in
  Js.truthy (input s) || Js.truthy_opt (image s) = true ->
  exists p,
    inflight (step m (KeyDown "Enter")) = (inflight m ++ [p])%list
    /\ requests (world (step m (KeyDown "Enter")))
       = (requests (world m) ++ [analysis_request s])%list
    /\ forall r w,
         requests (fst (exec (on_resolve p r) [] w))
         = (requests w
            ++ if isTtsEnabled s
               then [Gemini.generateSpeech_request (Gemini.text (reply r))]
               else [])%list
         /\ messages (app (fst (exec (on_resolve p r) [] w)))
            = (messages (app w) ++ [reply r])%list.
Proof.
  intros s Hg.
  cbn [step String.eqb Ascii.eqb Bool.eqb]. fold s.
  rewrite invoke_inflight, invoke_world.
  unfold pending_of.
  enter_handleSend (guard_open s None Hg).
  cbn. eexists. split; [reflexivity|]. split; [reflexivity|].
  intros r w. cbn. destruct (isTtsEnabled s); cbn.
  - split; reflexivity.
  - split; [now rewrite app_nil_r | reflexivity].
Qed.

Lemma enter_keeps_image (m : Machine) :
  image (app (world (step m (KeyDown "Enter")))) = image (app (world m)).
Proof.
  cbn [step String.eqb Ascii.eqb Bool.eqb]. rewrite invoke_world.
  unfold handleSend. cbv zeta.
  destruct (negb _ && negb _); reflexivity.
Qed.

(** X6: while nothing is loading, a click on the send button and Enter in
    the text field do the same thing. *)
Theorem send_button_is_enter_when_idle (m : Machine) :
  isLoading (app (world m)) = false ->
  step m ClickSend = step m (KeyDown "Enter").
Proof.
  intros H. cbn [step String.eqb Ascii.eqb Bool.eqb].
  unfold send_disabled. rewrite H. cbn [orb].
  destruct (negb (Js.truthy (input (app (world m))))
            && negb (Js.truthy_opt (image (app (world m))))) eqn:G;
    [|reflexivity].
  unfold handleSend. cbv zeta. cbn [Js.or_else]. rewrite G.
  now destruct m.
Qed.

Lemma send_button_is_enter_when_idle_witness :
  step ready ClickSend = step ready (KeyDown "Enter").
Proof. exact (@send_button_is_enter_when_idle ready eq_refl). Defined.

Lemma button_only_step (m : Machine) (ev : Event) :
  well_formed m ->
  is_enter ev = false ->
  inflight m = []
  \/ (exists p, inflight m = [p] /\ isLoading (app (world m)) = true) ->
  inflight (step m ev) = []
  \/ (exists p, inflight (step m ev) = [p]
               /\ isLoading (app (world (step m ev))) = true).
Proof.
  intros Hwf Hev Inv. destruct ev; cbn [step]; cbn in Hev; try exact Inv.
  - rewrite Hev. exact Inv.
  - destruct (send_disabled (app (world m))) eqn:D; [exact Inv|].
    apply orb_false_iff in D as [L _].
    destruct Inv as [E|(p & _ & L')]; [|congruence].
    rewrite invoke_inflight, invoke_world, E. cbn [List.app].
    destruct (start_turn (app (world m)) None (world m)) as (_ & _ & Q).
    destruct (pending_of _) as [p|]; [right; exists p; split; [reflexivity|]
                                     | now left].
    apply Q.
  - destruct (_ && _); exact Inv.
  - destruct (nth_error (inflight m) i) as [p|] eqn:E; [|exact Inv].
    rewrite resume_as_match.
    destruct Inv as [E0|(p0 & E0 & L)]; rewrite E0 in E.
    + destruct i; discriminate E.
    + destruct i as [|i]; [|destruct i; discriminate E].
      injection E as ->.
      rewrite invoke_inflight, invoke_world. cbn [inflight world].
      rewrite E0. cbn [remove_nth List.app].
      assert (Hstage : awaits_analysis p \/ awaits_speech p).
      { destruct Hwf as [Hi _]. rewrite E0 in Hi. now inversion Hi. }
      destruct Hstage as [Ha|Hs].
      * destruct (resume_analysis o (world m) Ha) as (_ & _ & Q).
        destruct (pending_of (resume p o)) as [p'|]; [|now left].
        right. exists p'. split; [reflexivity|].
        destruct Q as [_ Q]. now rewrite Q.
      * destruct (resume_speech o (world m) Hs) as (Q & _).
        rewrite Q. now left.
  - destruct (nth_error (playing (world m)) i) as [[src cb]|] eqn:E;
      [|exact Inv].
    rewrite (playing_callback i Hwf E). exact Inv.
Qed.

(** X7: in a session where Enter is never pressed in the text field, at most
    one request is in flight at any time, and loading is on whenever one
    is. *)
Theorem send_button_alone_keeps_one_in_flight (evs : list Event) :
  forallb (fun ev => negb (is_enter ev)) evs = true ->
  List.length (inflight (run boot evs)) <= 1
  /\ (inflight (run boot evs) <> [] ->
      isLoading (app (world (run boot evs))) = true).
Proof.
  intros H.
  assert (G : forall m,
             well_formed m ->
             inflight m = []
             \/ (exists p, inflight m = [p]
                          /\ isLoading (app (world m)) = true) ->
             inflight (run m evs) = []
             \/ (exists p, inflight (run m evs) = [p]
                          /\ isLoading (app (world (run m evs))) = true)).
  { induction evs as [|ev evs IH]; intros m Hwf Inv; cbn.
    - exact Inv.
    - cbn in H. apply andb_true_iff in H as [Hev H].
      apply negb_true_iff in Hev.
      apply (IH H).
      + now apply step_well_formed.
      + now apply button_only_step. }
  destruct (G boot boot_well_formed (or_introl eq_refl)) as [E|(p & E & L)];
    rewrite E; cbn; split; auto; easy.
Qed.

Lemma send_button_alone_keeps_one_in_flight_witness :
  List.length (inflight (run boot two_clicks)) <= 1.
Proof.
  exact (proj1 (@send_button_alone_keeps_one_in_flight two_clicks eq_refl)).
Defined.

Lemma loading_step (m : Machine) (ev : Event) :
  well_formed m ->
  is_settle ev = false ->
  isLoading (app (world m)) = true ->
  isLoading (app (world (step m ev))) = true.
Proof.
  intros Hwf Hev L. destruct ev; cbn [step]; try exact L; try discriminate Hev.
  - destruct (String.eqb key "Enter"); [|exact L].
    rewrite invoke_world.
    destruct (start_turn (app (world m)) None (world m)) as (_ & _ & Q).
    destruct (pending_of _) as [p|]; [apply Q | now rewrite Q].
  - unfold send_disabled. now rewrite L.
  - destruct (_ && _); exact L.
  - destruct (nth_error (playing (world m)) i) as [[src cb]|] eqn:E;
      [|exact L].
    rewrite (playing_callback i Hwf E). exact L.
Qed.

(** X8: once loading is on, only an answer of the endpoint can switch it
    off: after any further events other than answers, clearing the chat
    included, loading is still on and the send button still disabled. *)
Theorem only_an_answer_ends_loading (before after : list Event) :
  isLoading (app (world (run boot before))) = true ->
  forallb (fun ev => negb (is_settle ev)) after = true ->
  isLoading (app (world (run boot (before ++ after)))) = true
  /\ send_disabled (app (world (run boot (before ++ after)))) = true.
Proof.
  intros L H. rewrite run_app.
  assert (G : isLoading (app (world (run (run boot before) after))) = true).
  { generalize (run_well_formed before boot_well_formed).
    revert L. generalize (run boot before).
    induction after as [|ev evs IH]; intros m L Hwf; cbn.
    - exact L.
    - cbn in H. apply andb_true_iff in H as [Hev H].
      apply negb_true_iff in Hev.
      apply (IH H).
      + now apply loading_step.
      + now apply step_well_formed. }
  split; [exact G|]. unfold send_disabled. now rewrite G.
Qed.

Lemma only_an_answer_ends_loading_witness :
  send_disabled (app (world (run boot (one_submission ++ impatience)))) = true.
Proof.
  exact (proj2 (@only_an_answer_ends_loading one_submission impatience
                  eq_refl eq_refl)).
Defined.

Lemma messages_step (m : Machine) (ev : Event) :
  well_formed m ->
  is_clear ev = false ->
  exists more,
    messages (app (world (step m ev)))
    = (messages (app (world m)) ++ more)%list.
Proof.
  intros Hwf Hev.
  destruct ev; cbn [step]; try discriminate Hev; try apply extends_refl.
  - destruct (String.eqb key "Enter"); [|apply extends_refl].
    rewrite invoke_world. apply start_turn.
  - destruct (send_disabled _); [apply extends_refl|].
    rewrite invoke_world. apply start_turn.
  - destruct (_ && _); apply extends_refl.
  - destruct (nth_error (inflight m) i) as [p|] eqn:E; [|apply extends_refl].
    rewrite resume_as_match, invoke_world. cbn [world].
    assert (Hstage : awaits_analysis p \/ awaits_speech p).
    { apply nth_error_In in E.
      exact (proj1 (Forall_forall _ _) (proj1 Hwf) p E). }
    destruct Hstage as [Ha|Hs].
    + apply (resume_analysis o (world m) Ha).
    + apply (resume_speech o (world m) Hs).
  - destruct (nth_error (playing (world m)) i) as [[src cb]|] eqn:E;
      [|apply extends_refl].
    rewrite (playing_callback i Hwf E). apply extends_refl.
Qed.

(** X9: as long as the chat is not cleared, the conversation only grows:
    after any events without a clear, the earlier conversation is a prefix
    of the later one. *)
Theorem conversation_only_grows_until_cleared (before after : list Event) :
  forallb (fun ev => negb (is_clear ev)) after = true ->
  exists more,
    messages (app (world (run boot (before ++ after))))
    = (messages (app (world (run boot before))) ++ more)%list.
Proof.
  intros H. rewrite run_app.
  generalize (run_well_formed before boot_well_formed).
  generalize (run boot before).
  induction after as [|ev evs IH]; intros m Hwf; cbn.
  - apply extends_refl.
  - cbn in H. apply andb_true_iff in H as [Hev H].
    apply negb_true_iff in Hev.
    destruct (messages_step ev Hwf Hev) as (more1 & E1).
    destruct (IH H (step m ev) (step_well_formed ev Hwf)) as (more2 & E2).
    exists (more1 ++ more2)%list.
    unfold run in E2. now rewrite E2, E1, app_assoc.
Qed.

Lemma conversation_only_grows_until_cleared_witness :
  exists more,
    messages (app (world (run boot (one_submission
                                    ++ [Settle 0 (Rejected "offline")]))))
    = (messages (app (world (run boot one_submission))) ++ more)%list.
Proof.
  exact (@conversation_only_grows_until_cleared one_submission
           [Settle 0 (Rejected "offline")] eq_refl).
Defined.

(** X10: in every state a session can reach, the end of a playing audio
    element sets the status to idle, whether or not a turn is loading, leaves
    the loading flag alone, and removes that element from those playing. *)
Theorem audio_end_sets_idle (evs : list Event) (i : nat) :
  i < List.length (playing (world (run boot evs))) ->
  status (app (world (step (run boot evs) (AudioEnded i)))) = idle
  /\ isLoading (app (world (step (run boot evs) (AudioEnded i))))
     = isLoading (app (world (run boot evs)))
  /\ List.length (playing (world (step (run boot evs) (AudioEnded i))))
     = List.length (playing (world (run boot evs))) - 1.
Proof.
  intros Hi.
  pose proof (run_well_formed evs boot_well_formed) as Hwf.
  revert Hi Hwf. generalize (run boot evs). intros m Hi Hwf.
  cbn [step].
  destruct (nth_error (playing (world m)) i) as [[src cb]|] eqn:E.
  - rewrite (playing_callback i Hwf E). cbn [world app playing].
    repeat split. now apply length_remove_nth.
  - apply nth_error_None in E. lia.
Qed.

Lemma audio_end_sets_idle_witness :
  status (app (world (step (run boot spoken_turn) (AudioEnded 0)))) = idle.
Proof.
  exact (proj1 (@audio_end_sets_idle spoken_turn 0 (le_n 1))).
Defined.

(** X11: a turn is fixed when it is submitted.  Whatever state-setting
    events happen while it waits (typing, the speech switch, the language,
    images, clearing), the requests it sends are the analysis request built
    from the state at submission and, exactly when speech was enabled then,
    the speech request for the reply's text; the reply is appended to the
    conversation as it is when the answer arrives, even if it was cleared
    in between. *)
Theorem turn_fixed_at_submission (m : Machine) (evs : list Event)
    (r : GenerateContentResponse) :
  let s := app (world m) in
  let waiting := run (step m (KeyDown "Enter")) evs in
  let answered :=
    step waiting (Settle (List.length (inflight m)) (Resolved r)) in
  Js.truthy (input s) || Js.truthy_opt (image s) = true ->
  forallb passive evs = true ->
  requests (world answered)
  = (requests (world m)
     ++ analysis_request s
        :: if isTtsEnabled s
           then [Gemini.generateSpeech_request (Gemini.text (reply r))]
           else [])%list
  /\ messages (app (world answered))
     = (messages (app (world waiting)) ++ [reply r])%list.
Proof.
  intros s waiting answered Hg Hp.
  destruct (submit_effect m Hg) as (p & I & R & K).
  destruct (passive_run evs (step m (KeyDown "Enter")) Hp) as [I' R'].
  fold waiting in I', R'. rewrite I in I'. rewrite R in R'.
  subst answered. cbn [step]. rewrite I'.
  rewrite nth_error_app2 by lia. rewrite Nat.sub_diag. cbn [nth_error].
  rewrite invoke_world. cbn [world].
  destruct (K r (world waiting)) as [Kr Km].
  rewrite Kr, Km, R'. fold s. rewrite <- app_assoc. split; reflexivity.
Qed.

Lemma turn_fixed_at_submission_witness :
  messages (app (world (step (run (step ready (KeyDown "Enter")) fiddling)
                          (Settle 0 (Resolved (Samples.answer "a cat"))))))
  = [ reply (Samples.answer "a cat") ].
Proof.
  exact (proj2 (@turn_fixed_at_submission ready fiddling
                  (Samples.answer "a cat") eq_refl eq_refl)).
Defined.

(** X12: typing, other keys than Enter, the speech switch, the language
    selector, image upload and removal, clearing and the recorder never send
    a request, start audio, touch what is in flight or change the loading
    flag. *)
Theorem passive_events_send_nothing (evs : list Event) (m : Machine) :
  forallb passive evs = true ->
  let m' := run m evs in
  requests (world m') = requests (world m)
  /\ inflight m' = inflight m
  /\ playing (world m') = playing (world m)
  /\ isLoading (app (world m')) = isLoading (app (world m)).
Proof.
  revert m. induction evs as [|ev evs IH]; intros m H; cbn.
  - repeat split.
  - cbn in H. apply andb_true_iff in H as [Hev H].
    destruct (IH (step m ev) H) as (R & I & P & L).
    unfold run in R, I, P, L. rewrite R, I, P, L. clear R I P L IH H.
    destruct ev; cbn [step]; try discriminate Hev;
      try (cbn in Hev; apply negb_true_iff in Hev; rewrite Hev);
      try (destruct (Js.truthy_opt _ && _));
      repeat split.
Qed.

Lemma passive_events_send_nothing_witness :
  requests (world (run (step ready (KeyDown "Enter")) fiddling))
  = requests (world (step ready (KeyDown "Enter"))).
Proof.
  exact (proj1 (@passive_events_send_nothing fiddling
                  (step ready (KeyDown "Enter")) eq_refl)).
Defined.

Lemma submitted_ext (a b : State) :
  input a = input b -> image a = image b -> submitted a = submitted b.
Proof. intros Hi Hm. unfold submitted. now rewrite Hi, Hm. Qed.

Lemma enter_appends_submitted (m : Machine) :
  let s := app (world m) in
  Js.truthy (input s) || Js.truthy_opt (image s) = true ->
  messages (app (world (step m (KeyDown "Enter"))))
  = (messages s ++ [submitted s])%list
  /\ input (app (world (step m (KeyDown "Enter")))) = "".
Proof.
  intros s Hg.
  cbn [step String.eqb Ascii.eqb Bool.eqb]. fold s. rewrite invoke_world.
  enter_handleSend (guard_open s None Hg). split; reflexivity.
Qed.

(** X13: with an image attached, every press of Enter submits a turn, text
    or no text, loading or not: [n] presses in a row put [n] more requests
    in flight and append exactly [n] user Messages, the first with the typed
    text (or the default text), the others with the default text, all with
    the image. *)
Theorem enter_with_attachment_always_submits (n : nat) (m : Machine) :
  Js.truthy_opt (image (app (world m))) = true ->
  let s := app (world m) in
  let m' := run m (presses n) in
  List.length (inflight m') = List.length (inflight m) + n
  /\ List.length (requests (world m')) = List.length (requests (world m)) + n
  /\ List.length (messages (app (world m')))
     = List.length (messages (app (world m))) + n
  /\ messages (app (world m'))
     = (messages s
        ++ match n with
           | O => []
           | S k => submitted s :: repeat (submitted (setInput "" s)) k
           end)%list.
Proof.
  revert m. induction n as [|n IH]; intros m Hi; cbv zeta.
  - cbn. rewrite app_nil_r. repeat split; lia.
  - change (run m (presses (S n)))
      with (run (step m (KeyDown "Enter")) (presses n)).
    assert (Hg : Js.truthy (input (app (world m)))
                 || Js.truthy_opt (image (app (world m))) = true)
      by (rewrite Hi; apply orb_true_r).
    destruct (submit_effect m Hg) as (p & I & R & _).
    destruct (enter_appends_submitted m Hg) as [M In].
    pose proof (enter_keeps_image m) as Im.
    destruct (IH (step m (KeyDown "Enter"))) as (I' & R' & L' & M').
    { now rewrite Im. }
    rewrite I', R', L', M', I, R, M.
    rewrite !length_app. cbn [List.length].
    repeat split; try lia.
    rewrite <- app_assoc. f_equal. cbn [List.app]. f_equal.
    assert (E : submitted (app (world (step m (KeyDown "Enter"))))
                = submitted (setInput "" (app (world m))))
      by (apply submitted_ext; [exact In | exact Im]).
    assert (E2 : submitted
                   (setInput "" (app (world (step m (KeyDown "Enter")))))
                 = submitted (setInput "" (app (world m))))
      by (apply submitted_ext; [reflexivity | exact Im]).
    destruct n as [|k]; [reflexivity|].
    now rewrite E, E2.
Qed.

Lemma enter_with_attachment_always_submits_witness :
  messages (app (world (run with_attachment (presses 3))))
  = [ submitted (app (world with_attachment));
      submitted (setInput "" (app (world with_attachment)));
      submitted (setInput "" (app (world with_attachment))) ].
Proof.
  exact (proj2 (proj2 (proj2
           (@enter_with_attachment_always_submits 3 with_attachment
              eq_refl)))).
Defined.

(** *** The transcript *)

Lemma append_assoc (a b c : string) : (a ++ b) ++ c = a ++ b ++ c.
Proof. induction a as [|x a IH]; cbn; [reflexivity | now rewrite IH]. Qed.

Lemma join_app (sep : string) (xs ys : list string) :
  xs <> [] -> ys <> [] ->
  Js.join sep (xs ++ ys) = Js.join sep xs ++ sep ++ Js.join sep ys.
Proof.
  intros Hx Hy. induction xs as [|x xs IH]; [easy|].
  destruct xs as [|x' xs].
  - destruct ys; [easy | reflexivity].
  - change (Js.join sep ((x :: x' :: xs) ++ ys))
      with (x ++ sep ++ Js.join sep ((x' :: xs) ++ ys)).
    rewrite IH by easy.
    change (Js.join sep (x :: x' :: xs))
      with (x ++ sep ++ Js.join sep (x' :: xs)).
    now rewrite !append_assoc.
Qed.

(** X16: appending messages to a non-empty conversation extends its export
    by a blank line and the export of the new messages. *)
Theorem downloadConversation_extends (s : State)
    (more : list Gemini.Message) :
  messages s <> [] ->
  more <> [] ->
  downloadConversation (setMessages (fun prev => (prev ++ more)%list) s)
  = downloadConversation s ++ Js.newline ++ Js.newline
    ++ downloadConversation (setMessages (fun _ => more) s).
Proof.
  intros Hs Hm. unfold downloadConversation. cbn [messages setMessages].
  rewrite map_app, join_app.
  - now rewrite !append_assoc.
  - now destruct (messages s).
  - now destruct more.
Qed.

Lemma downloadConversation_extends_witness :
  downloadConversation
    (setMessages (fun prev => (prev ++ Samples.greeting)%list)
       (setMessages (fun _ => Samples.greeting) initial))
  = downloadConversation (setMessages (fun _ => Samples.greeting) initial)
    ++ Js.newline ++ Js.newline
    ++ downloadConversation (setMessages (fun _ => Samples.greeting) initial).
Proof.
  apply (@downloadConversation_extends
           (setMessages (fun _ => Samples.greeting) initial)
           Samples.greeting);
    discriminate.
Defined.

End SessionFacts.

(* ------------------------------------------------------------------ *)
(** ** The speech switch and the turns *)

Module SpeechSwitch.

Import Genai Async App Stated AppFacts Session SessionFacts.

Lemma passive_playing (evs : list Event) (m : Machine) :
  forallb passive evs = true ->
  playing (world (run m evs)) = playing (world m).
Proof.
  revert m. induction evs as [|ev evs IH]; intros m H; cbn.
  - reflexivity.
  - cbn in H. apply andb_true_iff in H as [Hev H].
    fold (run (step m ev) evs). rewrite (IH (step m ev) H).
    destruct ev; cbn [step]; try discriminate Hev;
      try (cbn in Hev; apply negb_true_iff in Hev; rewrite Hev);
      try (destruct (Js.truthy_opt _ && _));
      reflexivity.
Qed.

Lemma remove_nth_last (A : Type) (xs : list A) (x : A) :
  remove_nth (List.length xs) (xs ++ [x]) = xs.
Proof.
  induction xs as [|y xs IH]; cbn; [reflexivity | now rewrite IH].
Qed.

Lemma muted_submission (m : Machine) :
  let s := app (world m) in
  Js.truthy (input s) || Js.truthy_opt (image s) = true ->
  isTtsEnabled s = false ->
  exists p,
    inflight (step m (KeyDown "Enter")) = (inflight m ++ [p])%list
    /\ requests (world (step m (KeyDown "Enter")))
       = (requests (world m) ++ [analysis_request s])%list
    /\ playing (world (step m (KeyDown "Enter"))) = playing (world m)
    /\ (exists trace,
          visited (world (step m (KeyDown "Enter")))
          = (visited (world m) ++ trace)%list
          /\ enters_speaking (status s) trace = false)
    /\ forall o w,
         pending_of (resume p o) = None
         /\ requests (fst (exec (resume p o) [] w)) = requests w
         /\ playing (fst (exec (resume p o) [] w)) = playing w
         /\ status (app (fst (exec (resume p o) [] w))) = idle
         /\ exists trace,
              visited (fst (exec (resume p o) [] w))
              = (visited w ++ trace)%list
              /\ enters_speaking (status (app w)) trace = false.
Proof.
  intros s Hg Ht.
  cbn [step String.eqb Ascii.eqb Bool.eqb]. fold s.
  rewrite invoke_inflight, invoke_world.
  unfold pending_of.
  enter_handleSend (guard_open s None Hg). rewrite Ht.
  cbn. eexists. split; [reflexivity|]. split; [reflexivity|].
  split; [reflexivity|]. split.
  - rewrite <- !app_assoc. eexists. split; [reflexivity|].
    cbn. fold s. now destruct (status s).
  - intros o w. destruct o as [r|e]; cbn; repeat split;
      rewrite <- !app_assoc; (eexists; split; [reflexivity|]); cbn;
      now destruct (status (app w)).
Qed.

Lemma analysis_is_not_speech (s : State) (t : string) :
  Gemini.generateSpeech_request t <> analysis_request s.
Proof. discriminate. Qed.

(** C8, as stated, fails: a turn submitted with speech output enabled, during
    which speech output is switched off while the analysis is awaited, still
    invokes [generateSpeech] and moves the status into speaking, although
    speech output is disabled when the answer arrives and afterwards. *)
Lemma speech_invoked_after_switching_off :
  isTtsEnabled (app (world switched_off_while_waiting)) = false
  /\ isTtsEnabled
       (app (world (step switched_off_while_waiting
                      (Settle 0 (Resolved (Samples.answer "a cat"))))))
     = false
  /\ requests (world (step switched_off_while_waiting
                        (Settle 0 (Resolved (Samples.answer "a cat")))))
     = [ analysis_request (Samples.typed "hi");
         Gemini.generateSpeech_request "a cat" ]
  /\ status (app (world (step switched_off_while_waiting
                           (Settle 0 (Resolved (Samples.answer "a cat"))))))
     = speaking.
Proof. repeat split. Qed.

(** C8, amended: a turn submitted while speech output is disabled never
    invokes [generateSpeech] and never moves the status into speaking,
    whatever state-setting events (the speech switch among them) occur while
    it waits and whatever the endpoint answers: the analysis request is the
    only request it sends, its answer leaves nothing in flight, starts no
    audio and leaves the status idle, and neither its submission nor its
    continuation moves the status into speaking.  The same holds of any
    handler created with speech output disabled and run on its own. *)
Theorem speech_off_at_submission (m : Machine) (evs : list Event)
    (answer : Outcome) :
  let s := app (world m) in
  let started := step m (KeyDown "Enter") in
  let waiting := run started evs in
  let answered := step waiting (Settle (List.length (inflight m)) answer) in
  Js.truthy (input s) || Js.truthy_opt (image s) = true ->
  isTtsEnabled s = false ->
  forallb passive evs = true ->
  requests (world answered) = (requests (world m) ++ [analysis_request s])%list
  /\ (forall t, Gemini.generateSpeech_request t <> analysis_request s)
  /\ inflight answered = inflight m
  /\ playing (world answered) = playing (world m)
  /\ status (app (world answered)) = idle
  /\ (exists trace,
        visited (world started) = (visited (world m) ++ trace)%list
        /\ enters_speaking (status s) trace = false)
  /\ (exists trace,
        visited (world answered) = (visited (world waiting) ++ trace)%list
        /\ enters_speaking (status (app (world waiting))) trace = false)
  /\ (forall c textOverride env s0,
        isTtsEnabled c = false ->
        let w' := fst (exec (handleSend c textOverride) env (init_world s0)) in
        (forall t, ~ In (Gemini.generateSpeech_request t) (requests w'))
        /\ enters_speaking (status s0) (visited w') = false
        /\ playing w' = []).
Proof.
  intros s started waiting answered Hg Ht Hp.
  destruct (muted_submission m Hg Ht) as (p & I & R & P & V & K).
  destruct (passive_run evs started Hp) as [I' R'].
  pose proof (passive_playing evs started Hp) as P'.
  fold waiting in I', R', P'. fold started in I, R, P, V.
  rewrite I in I'. rewrite R in R'. rewrite P in P'.
  assert (E : answered = invoke {| world := world waiting;
                                   inflight := inflight m |}
                           (resume p answer)).
  { subst answered. cbn [step]. rewrite I'.
    rewrite nth_error_app2 by lia. rewrite Nat.sub_diag. cbn [nth_error].
    now rewrite remove_nth_last. }
  destruct (K answer (world waiting)) as (Kp & Kr & Kq & Ks & Kv).
  rewrite E, invoke_inflight, invoke_world. cbn [world inflight].
  rewrite Kp, Kr, Kq, Ks, R', P', app_nil_r.
  split; [reflexivity|].
  split; [intros t; apply analysis_is_not_speech|].
  split; [reflexivity|]. split; [reflexivity|]. split; [reflexivity|].
  split; [exact V|]. split; [exact Kv|].
  intros c textOverride env s0 Hc.
  destruct (muted_turn_on_its_own c textOverride env s0 Hc)
    as (_ & A & B & C).
  repeat split; assumption.
Qed.

Lemma speech_off_at_submission_witness :
  requests (world (step (run (step ready_muted (KeyDown "Enter"))
                             switching_on)
                        (Settle 0 (Resolved (Samples.answer "a cat")))))
  = [ analysis_request (app (world ready_muted)) ].
Proof.
  exact (proj1 (@speech_off_at_submission ready_muted switching_on
                  (Resolved (Samples.answer "a cat"))
                  eq_refl eq_refl eq_refl)).
Defined.

End SpeechSwitch.
